(** * go-concurrent-web-scraper: the fetch engine and the worker loop

    A shallow embedding of [fetcher/fetch.go] (FetchWithRetry) and of
    [worker/pool.go] (Start), with the properties of the retry loop, of the
    backoff, of the error values and of the worker's select loop.

    Effects are explicit.  The network, the clock and the response body are
    a [World]: the number of GET requests performed so far and the
    chronological log of the effects.  What the network answers is an oracle
    [net url k], the outcome of the [k]-th GET of the run. *)

From Stdlib Require Import ZArith String List Lia Bool DecimalString.
Import ListNotations.
Open Scope Z_scope.
Open Scope string_scope.

(** ** The pieces of the Go runtime the two packages use *)

Module Go.

(** Go's [int] and [int64] (and [time.Duration], an [int64]) on a 64-bit
    target: arithmetic wraps around in two's complement. *)
Definition min_int : Z := - 2 ^ 63.
Definition max_int : Z := 2 ^ 63 - 1.

Definition wrap64 (z : Z) : Z := (z + 2 ^ 63) mod 2 ^ 64 - 2 ^ 63.

Definition int_add (a b : Z) : Z := wrap64 (a + b).
Definition int64_mul (a b : Z) : Z := wrap64 (a * b).

(** An [error] interface value: [None] is [nil], [Some m] an error whose
    [Error()] text is [m]. *)
Definition error : Type := option string.

(** [fmt]'s verbs, as they are used here: [%d] on an int, [%v] on an error
    (a nil interface prints as [<nil>]). *)
Definition fmt_d (z : Z) : string := NilZero.string_of_int (Z.to_int z).

Definition fmt_v (e : error) : string :=
  match e with
  | None => "<nil>"
  | Some m => m
  end.

(** [fmt.Errorf] builds a non-nil error from the formatted text. *)
Definition Errorf (text : string) : error := Some text.

(** [len] of a string: its number of bytes. *)
Definition len (s : string) : Z := Z.of_nat (String.length s).

End Go.

(** ** package fetcher *)

Module Fetcher.

Import Go.

(** What [io.ReadAll(resp.Body)] gives: the bytes, or an error. *)
Inductive ReadResult : Type :=
| ReadOk (data : string)
| ReadErr (msg : string).

(** What [http.Get] gives: a transport error ([err != nil]), or a response
    with its status code and its body, still to be read. *)
Inductive GetResult : Type :=
| GetErr (msg : string)
| GetResp (status : Z) (body : ReadResult).

Definition StatusOK : Z := 200.

(** [time.Second], in nanoseconds. *)
Definition Second : Z := 1000000000.

Inductive Event : Type :=
| EvGet (url : string)
| EvReadAll
| EvClose
| EvSleep (d : Z).

Record World : Type := mkWorld {
  gets : nat;          (* GET requests performed so far *)
  log : list Event     (* effects, oldest first *)
}.

Definition IO (A : Type) : Type := World -> A * World.

Definition ret {A : Type} (a : A) : IO A := fun w => (a, w).

Definition bind {A B : Type} (m : IO A) (k : A -> IO B) : IO B :=
  fun w => let (a, w1) := m w in k a w1.

Notation "x <- m ;; k" := (bind m (fun x => k))
  (at level 61, m at next level, right associativity).
Notation "m ;;; k" := (bind m (fun _ => k))
  (at level 61, right associativity).

Definition emit (e : Event) : IO unit :=
  fun w => (tt, {| gets := gets w; log := (log w ++ [e])%list |}).

(** The error of a GET ([nil] when the transport succeeded) and the body of
    a response that passes [err == nil && resp.StatusCode == http.StatusOK]. *)
Definition err_of (r : GetResult) : error :=
  match r with
  | GetErr msg => Some msg
  | GetResp _ _ => None
  end.

Definition ok_response (r : GetResult) : option ReadResult :=
  match r with
  | GetErr _ => None
  | GetResp status body => if (status =? StatusOK)%Z then Some body else None
  end.

(** An attempt that does not leave the loop. *)
Definition retryable (r : GetResult) : bool :=
  match ok_response r with
  | None => true
  | Some _ => false
  end.

(** [time.Duration(i+1) * time.Second]. *)
Definition backoff (i : Z) : Z := int64_mul (int_add i 1) Second.

Section FetchWithRetry.

(** The network: the outcome of the [k]-th GET of the run, for a url. *)
Variable net : string -> nat -> GetResult.

Definition http_Get (url : string) : IO GetResult :=
  fun w => (net url (gets w),
            {| gets := S (gets w); log := (log w ++ [EvGet url])%list |}).

Definition io_ReadAll (body : ReadResult) : IO ReadResult :=
  emit EvReadAll ;;; ret body.

Definition Body_Close : IO unit := emit EvClose.

Definition time_Sleep (d : Z) : IO unit := emit (EvSleep d).

(** The [for i := 0; i < retries; i++] loop, from the test of its condition
    on.  [fuel] bounds the iterations; [None] is out of fuel. *)
Fixpoint retry_loop (fuel : nat) (url : string) (retries i : Z) (err : error)
  : IO (option (string * error)) :=
  if (i <? retries)%Z then
    match fuel with
    | O => ret None
    | S fuel' =>
        r <- http_Get url ;;
        match ok_response r with
        | Some resp_body =>
            b <- io_ReadAll resp_body ;;
            match b with
            | ReadErr e =>
                Body_Close ;;;
                ret (Some ("", Errorf ("error reading body: " ++ e)))
            | ReadOk data =>
                Body_Close ;;;
                ret (Some (data, None))
            end
        | None =>
            time_Sleep (backoff i) ;;;
            retry_loop fuel' url retries (int_add i 1) (err_of r)
        end
    end
  else
    ret (Some ("", Errorf ("failed after " ++ fmt_d retries ++ " retries: "
                           ++ fmt_v err))).

Definition FetchWithRetry (url : string) (retries : Z)
  : IO (option (string * error)) :=
  retry_loop (Z.to_nat retries) url retries 0 None.

End FetchWithRetry.

(** The events of [m] failed attempts in a row, the first with index [i]. *)
Fixpoint failed_rounds (url : string) (i : Z) (m : nat) : list Event :=
  match m with
  | O => []
  | S m' => EvGet url :: EvSleep (backoff i) :: failed_rounds url (i + 1) m'
  end.

(** The waits of a log, oldest first, and its number of GET requests. *)
Fixpoint sleeps (l : list Event) : list Z :=
  match l with
  | [] => []
  | EvSleep d :: l' => d :: sleeps l'
  | _ :: l' => sleeps l'
  end.

Fixpoint get_count (l : list Event) : nat :=
  match l with
  | [] => O
  | EvGet _ :: l' => S (get_count l')
  | _ :: l' => get_count l'
  end.

(** The number of response bodies a log closes, and the time a log spends
    asleep, in nanoseconds. *)
Fixpoint close_count (l : list Event) : nat :=
  match l with
  | [] => O
  | EvClose :: l' => S (close_count l')
  | _ :: l' => close_count l'
  end.

Definition total_wait (l : list Event) : Z :=
  fold_right Z.add 0 (sleeps l).

(** The world after [m] failed attempts in a row, the first with index [i],
    and the value of [err] then. *)
Definition after_failures (url : string) (i : Z) (m : nat) (w : World)
  : World :=
  {| gets := gets w + m; log := (log w ++ failed_rounds url i m)%list |}.

Definition err_after (net : string -> nat -> GetResult) (url : string)
  (err : error) (w : World) (m : nat) : error :=
  match m with
  | O => err
  | S m' => err_of (net url (gets w + m')%nat)
  end.

(** The error of the last return statement, for a budget of [n]. *)
Definition exhausted (n : Z) (err : error) : string * error :=
  ("", Errorf ("failed after " ++ fmt_d n ++ " retries: " ++ fmt_v err)).

Definition is_exhausted (n : Z) (r : string * error) : Prop :=
  exists err : error, r = exhausted n err.

(** Two results of the loop that are equal, or that both come from its last
    return statement. *)
Definition same_outcome (n : Z) (o o' : option (string * error)) : Prop :=
  o = o' \/
  exists e e' : error, o = Some (exhausted n e) /\ o' = Some (exhausted n e').

(** The waits the specification gives a run of [n] failed attempts: one
    before each retry, [(i+1)] seconds after failed attempt [i], none after
    the last attempt. *)
Definition spec_waits (n : nat) : list Z :=
  map (fun i => (Z.of_nat i + 1) * Second) (seq 0 (Nat.pred n)).

(** The last underlying error encountered, in the words of the
    specification: the error of the latest of the first [m] attempts that
    had one. *)
Fixpoint last_error_encountered (net : string -> nat -> GetResult)
  (url : string) (m : nat) : error :=
  match m with
  | O => None
  | S m' =>
      match err_of (net url m') with
      | Some e => Some e
      | None => last_error_encountered net url m'
      end
  end.

(** Worlds and networks of the examples. *)
Definition w0 : World := {| gets := 0; log := [] |}.

Definition always500 : string -> nat -> GetResult :=
  fun _ _ => GetResp 500 (ReadOk "oops").

Definition always_refused : string -> nat -> GetResult :=
  fun _ _ => GetErr "dial tcp: connection refused".

Definition refused_then_500 : string -> nat -> GetResult :=
  fun _ k =>
    match k with
    | O => GetErr "dial tcp: connection refused"
    | S _ => GetResp 500 (ReadOk "oops")
    end.

Definition all_ok_net : string -> nat -> GetResult :=
  fun _ _ => GetResp 200 (ReadOk "<html>hi</html>").

Definition ok_on_second : string -> nat -> GetResult :=
  fun _ k =>
    match k with
    | S O => GetResp 200 (ReadOk "<html>hi</html>")
    | _ => GetResp 503 (ReadOk "")
    end.

Definition unreadable_on_second : string -> nat -> GetResult :=
  fun _ k =>
    match k with
    | S O => GetResp 200 (ReadErr "unexpected EOF")
    | _ => GetErr "dial tcp: connection refused"
    end.

End Fetcher.

(** ** package worker *)

Module Worker.

Import Go Fetcher.

(** Where the goroutine running [Start] is: in its loop, or returned from
    the [ctx.Done()] case, or returned from the closed jobs channel. *)
Inductive Status : Type :=
| Looping
| ReturnedCancel
| ReturnedClosed.

(** One worker and what it shares with the rest of the program.  The results
    channel is the sequence of the values this worker has sent on it; a send
    on a full channel only delays the worker, so capacity is left out. *)
Record State : Type := mkState {
  cancelled : bool;        (* ctx.Done() is closed *)
  jobs : list string;      (* buffer of the jobs channel, oldest first *)
  jobs_closed : bool;      (* close(jobs) has happened *)
  results : list string;   (* sent on results by this worker, oldest first *)
  stdout : list string;    (* printed by this worker, oldest first *)
  world : World;           (* the network and the clock *)
  status : Status
}.

(** Capacity of the jobs channel, [make(chan string, 10)] in main. *)
Definition jobs_cap : nat := 10.

Definition newline : string := String (Ascii.ascii_of_nat 10) EmptyString.

(** [fmt.Printf("[Worker %d] Stopping\n", id)]. *)
Definition stop_notice (id : Z) : string :=
  "[Worker " ++ fmt_d id ++ "] Stopping" ++ newline.

(** The two [fmt.Sprintf] of the loop body. *)
Definition error_line (id : Z) (url e : string) : string :=
  "Worker " ++ fmt_d id ++ ": Error fetching " ++ url ++ ": " ++ e.

Definition fetched_line (id : Z) (url body : string) : string :=
  "Worker " ++ fmt_d id ++ ": Fetched " ++ url ++ ", length: "
  ++ fmt_d (len body).

Definition result_line (id : Z) (url body : string) (err : error) : string :=
  match err with
  | Some e => error_line id url e
  | None => fetched_line id url body
  end.

(** The cases of the [select]. *)
Inductive Case : Type :=
| CaseDone
| CaseRecv.

(** [url, ok := <-jobs]: a buffered value first; on an empty closed channel
    the zero value and [false]; on an empty open channel no communication. *)
Definition chan_recv (buf : list string) (closed : bool)
  : option (string * bool * list string) :=
  match buf with
  | url :: rest => Some (url, true, rest)
  | [] => if closed then Some ("", false, []) else None
  end.

(** Whether the communication of a case can proceed. *)
Definition can_proceed (c : Case) (s : State) : bool :=
  match c with
  | CaseDone => cancelled s
  | CaseRecv =>
      match chan_recv (jobs s) (jobs_closed s) with
      | Some _ => true
      | None => false
      end
  end.

(** One iteration of the [for { select { ... } }] of [Start], when the
    select chooses [pick]; [None] when [pick] cannot proceed or the worker
    has returned. *)
Definition iteration (net : string -> nat -> GetResult) (id : Z)
  (pick : Case) (s : State) : option State :=
  match status s with
  | Looping =>
      match pick with
      | CaseDone =>
          if cancelled s then
            Some {| cancelled := cancelled s; jobs := jobs s;
                    jobs_closed := jobs_closed s; results := results s;
                    stdout := (stdout s ++ [stop_notice id])%list;
                    world := world s; status := ReturnedCancel |}
          else None
      | CaseRecv =>
          match chan_recv (jobs s) (jobs_closed s) with
          | None => None
          | Some (url, ok, rest) =>
              if negb ok then
                Some {| cancelled := cancelled s; jobs := rest;
                        jobs_closed := jobs_closed s; results := results s;
                        stdout := stdout s; world := world s;
                        status := ReturnedClosed |}
              else
                match FetchWithRetry net url 3 (world s) with
                | (None, _) => None
                | (Some (body, err), w') =>
                    Some {| cancelled := cancelled s; jobs := rest;
                            jobs_closed := jobs_closed s;
                            results :=
                              (results s ++ [result_line id url body err])%list;
                            stdout := stdout s; world := w';
                            status := Looping |}
                end
          end
      end
  | ReturnedCancel | ReturnedClosed => None
  end.

(** A step of the worker: the select chooses any case that can proceed. *)
Inductive worker_step (net : string -> nat -> GetResult) (id : Z)
  : State -> State -> Prop :=
| ws_select (pick : Case) (s s' : State) :
    iteration net id pick s = Some s' -> worker_step net id s s'.

(** What the rest of the program does to the shared state: main's interrupt
    handler cancels the context, its feeder sends a job or closes the jobs
    channel, another worker receives the oldest job. *)
Inductive env_step : State -> State -> Prop :=
| env_cancel (s : State) :
    env_step s {| cancelled := true; jobs := jobs s;
                  jobs_closed := jobs_closed s; results := results s;
                  stdout := stdout s; world := world s; status := status s |}
| env_send (s : State) (url : string) :
    jobs_closed s = false -> (List.length (jobs s) < jobs_cap)%nat ->
    env_step s {| cancelled := cancelled s; jobs := (jobs s ++ [url])%list;
                  jobs_closed := jobs_closed s; results := results s;
                  stdout := stdout s; world := world s; status := status s |}
| env_close (s : State) :
    jobs_closed s = false ->
    env_step s {| cancelled := cancelled s; jobs := jobs s;
                  jobs_closed := true; results := results s;
                  stdout := stdout s; world := world s; status := status s |}
| env_taken (s : State) (url : string) (rest : list string) :
    jobs s = url :: rest ->
    env_step s {| cancelled := cancelled s; jobs := rest;
                  jobs_closed := jobs_closed s; results := results s;
                  stdout := stdout s; world := world s; status := status s |}.

Inductive step (net : string -> nat -> GetResult) (id : Z)
  : State -> State -> Prop :=
| step_worker (s s' : State) : worker_step net id s s' -> step net id s s'
| step_env (s s' : State) : env_step s s' -> step net id s s'.

Inductive run (net : string -> nat -> GetResult) (id : Z)
  : State -> State -> Prop :=
| run_done (s : State) : run net id s s
| run_more (s s' s'' : State) :
    step net id s s' -> run net id s' s'' -> run net id s s''.

(** The three ways an iteration goes. *)
Inductive iteration_spec (net : string -> nat -> GetResult) (id : Z)
  (s : State) : Case -> State -> Prop :=
| it_cancel :
    cancelled s = true ->
    iteration_spec net id s CaseDone
      {| cancelled := cancelled s; jobs := jobs s;
         jobs_closed := jobs_closed s; results := results s;
         stdout := (stdout s ++ [stop_notice id])%list;
         world := world s; status := ReturnedCancel |}
| it_closed :
    jobs s = [] -> jobs_closed s = true ->
    iteration_spec net id s CaseRecv
      {| cancelled := cancelled s; jobs := [];
         jobs_closed := jobs_closed s; results := results s;
         stdout := stdout s; world := world s; status := ReturnedClosed |}
| it_job (url : string) (rest : list string) (body : string) (err : error)
    (w' : World) :
    jobs s = url :: rest ->
    FetchWithRetry net url 3 (world s) = (Some (body, err), w') ->
    iteration_spec net id s CaseRecv
      {| cancelled := cancelled s; jobs := rest;
         jobs_closed := jobs_closed s;
         results := (results s ++ [result_line id url body err])%list;
         stdout := stdout s; world := w'; status := Looping |}.

(** A worker as main starts it. *)
Definition start_state : State :=
  {| cancelled := false; jobs := []; jobs_closed := false; results := [];
     stdout := []; world := w0; status := Looping |}.

(** A cancelled context with a job ready on the jobs channel. *)
Definition cancelled_with_job : State :=
  {| cancelled := true; jobs := ["http://a.test"]; jobs_closed := false;
     results := []; stdout := []; world := w0; status := Looping |}.

(** The cancellation bound in the words of the specification: once the
    context is cancelled, an iteration of the worker ends it and takes no
    job. *)
Definition stops_once_cancelled (net : string -> nat -> GetResult) (id : Z)
  : Prop :=
  forall s s' : State,
    cancelled s = true -> worker_step net id s s' ->
    status s' <> Looping /\ jobs s' = jobs s.

(** What a worker has printed, by where it is. *)
Definition printed (id : Z) (st : Status) : list string :=
  match st with
  | ReturnedCancel => [stop_notice id]
  | Looping | ReturnedClosed => []
  end.

(** A worker that was cancelled while it waited for a job: main cancels the
    context, the select takes the [ctx.Done()] case. *)
Definition stopped_state (id : Z) : State :=
  {| cancelled := true; jobs := []; jobs_closed := false; results := [];
     stdout := [stop_notice id]; world := w0; status := ReturnedCancel |}.

(** The notices of a worker among what it printed. *)
Definition notices (id : Z) (s : State) : nat :=
  count_occ string_dec (stdout s) (stop_notice id).

(** Runs of the worker alone, with no step of the rest of the program. *)
Inductive worker_run (net : string -> nat -> GetResult) (id : Z)
  : State -> State -> Prop :=
| wr_done (s : State) : worker_run net id s s
| wr_more (s s' s'' : State) :
    worker_step net id s s' -> worker_run net id s' s'' ->
    worker_run net id s s''.

(** The result lines of the jobs [js] fetched one after the other from the
    world [w], and the world after them. *)
Fixpoint fetch_all (net : string -> nat -> GetResult) (id : Z)
  (js : list string) (w : World) : list string * World :=
  match js with
  | [] => ([], w)
  | url :: rest =>
      match FetchWithRetry net url 3 w with
      | (Some (body, err), w1) =>
          let (lines, w2) := fetch_all net id rest w1 in
          (result_line id url body err :: lines, w2)
      | (None, w1) => ([], w1)
      end
  end.

End Worker.

(** ** package main *)

Module Main.

Import Go Fetcher Worker.

(** [const workerCount = 5]. *)
Definition workerCount : Z := 5.

(** Capacity of the results channel, [make(chan string, 10)]. *)
Definition results_cap : nat := 10.

(** Where a worker goroutine is: at its select, at [results <- ...] with the
    line it formatted, or returned from one of the two cases. *)
Inductive Phase : Type :=
| Selecting
| Sending (line : string)
| StoppedCancel
| StoppedClosed.

Record Goroutine : Type := mkGoroutine {
  g_id : Z;                (* the id main gave it *)
  g_phase : Phase;
  g_world : World;         (* the network as this worker meets it *)
  g_out : list string      (* printed by this worker, oldest first *)
}.

(** The program after main has made its channels and context and started its
    goroutines.  Standard output is kept per goroutine. *)
Record Pool : Type := mkPool {
  ctx_done : bool;             (* cancel() has been called *)
  jobs_buf : list string;      (* buffer of jobs, oldest first *)
  jobs_shut : bool;            (* close(jobs) has happened *)
  results_buf : list string;   (* buffer of results, oldest first *)
  feed : list string;          (* lines the scanner has still to yield *)
  feeder_done : bool;          (* the feeder goroutine has returned *)
  handler_out : list string;   (* printed by the interrupt handler *)
  main_out : list string;      (* printed by main's range loop *)
  workers : list Goroutine;
  panicked : bool              (* a send on, or a close of, a closed channel *)
}.

Fixpoint set_nth {A : Type} (k : nat) (x : A) (l : list A) {struct l}
  : list A :=
  match l, k with
  | [], _ => []
  | _ :: l', O => x :: l'
  | y :: l', S k' => y :: set_nth k' x l'
  end.

Definition set_worker (k : nat) (g : Goroutine) (p : Pool) : Pool :=
  {| ctx_done := ctx_done p; jobs_buf := jobs_buf p; jobs_shut := jobs_shut p;
     results_buf := results_buf p; feed := feed p;
     feeder_done := feeder_done p; handler_out := handler_out p;
     main_out := main_out p; workers := set_nth k g (workers p);
     panicked := panicked p |}.

Definition set_jobs (buf rest : list string) (p : Pool) : Pool :=
  {| ctx_done := ctx_done p; jobs_buf := buf; jobs_shut := jobs_shut p;
     results_buf := results_buf p; feed := rest;
     feeder_done := feeder_done p; handler_out := handler_out p;
     main_out := main_out p; workers := workers p; panicked := panicked p |}.

Definition set_results (buf out : list string) (p : Pool) : Pool :=
  {| ctx_done := ctx_done p; jobs_buf := jobs_buf p; jobs_shut := jobs_shut p;
     results_buf := buf; feed := feed p;
     feeder_done := feeder_done p; handler_out := handler_out p;
     main_out := out; workers := workers p; panicked := panicked p |}.

Definition shut_jobs (p : Pool) : Pool :=
  {| ctx_done := ctx_done p; jobs_buf := jobs_buf p; jobs_shut := true;
     results_buf := results_buf p; feed := feed p;
     feeder_done := true; handler_out := handler_out p;
     main_out := main_out p; workers := workers p; panicked := panicked p |}.

Definition cancel (p : Pool) : Pool :=
  {| ctx_done := true; jobs_buf := jobs_buf p; jobs_shut := jobs_shut p;
     results_buf := results_buf p; feed := feed p;
     feeder_done := feeder_done p;
     handler_out := (handler_out p ++ [("Shutting down..." ++ newline)%string])%list;
     main_out := main_out p; workers := workers p; panicked := panicked p |}.

Definition panic (p : Pool) : Pool :=
  {| ctx_done := ctx_done p; jobs_buf := jobs_buf p; jobs_shut := jobs_shut p;
     results_buf := results_buf p; feed := feed p;
     feeder_done := feeder_done p; handler_out := handler_out p;
     main_out := main_out p; workers := workers p; panicked := true |}.

(** What a goroutine of main does next. *)
Inductive Action : Type :=
| Feed                            (* feeder: jobs <- scanner.Text() *)
| CloseJobs                       (* feeder: close(jobs) *)
| Interrupt                       (* handler: <-c, Println, cancel() *)
| Select (k : nat) (pick : Case)  (* worker k: its select, and the fetch *)
| Send (k : nat)                  (* worker k: results <- line *)
| Drain.                          (* main: res := <-results, Println(res) *)

(** One action on the program; [None] when the goroutine is blocked or has
    returned.  [nets id] is the network as the worker [id] meets it. *)
Definition act (nets : Z -> string -> nat -> GetResult) (a : Action)
  (p : Pool) : option Pool :=
  if panicked p then None else
  match a with
  | Feed =>
      if feeder_done p then None else
      match feed p with
      | [] => None
      | line :: rest =>
          if jobs_shut p then Some (panic p)
          else if (List.length (jobs_buf p) <? jobs_cap)%nat
               then Some (set_jobs (jobs_buf p ++ [line]) rest p)
               else None
      end
  | CloseJobs =>
      if feeder_done p then None else
      match feed p with
      | _ :: _ => None
      | [] => if jobs_shut p then Some (panic p) else Some (shut_jobs p)
      end
  | Interrupt =>
      if ctx_done p then None else Some (cancel p)
  | Select k pick =>
      match nth_error (workers p) k with
      | None => None
      | Some g =>
          match g_phase g with
          | Selecting =>
              match pick with
              | CaseDone =>
                  if ctx_done p then
                    Some (set_worker k
                            {| g_id := g_id g; g_phase := StoppedCancel;
                               g_world := g_world g;
                               g_out := (g_out g ++ [stop_notice (g_id g)])%list |}
                            p)
                  else None
              | CaseRecv =>
                  match chan_recv (jobs_buf p) (jobs_shut p) with
                  | None => None
                  | Some (url, ok, rest) =>
                      if negb ok then
                        Some (set_worker k
                                {| g_id := g_id g; g_phase := StoppedClosed;
                                   g_world := g_world g; g_out := g_out g |}
                                p)
                      else
                        match FetchWithRetry (nets (g_id g)) url 3 (g_world g)
                        with
                        | (None, _) => None
                        | (Some (body, err), w') =>
                            Some (set_worker k
                                    {| g_id := g_id g;
                                       g_phase :=
                                         Sending
                                           (result_line (g_id g) url body err);
                                       g_world := w'; g_out := g_out g |}
                                    (set_jobs rest (feed p) p))
                        end
                  end
              end
          | Sending _ | StoppedCancel | StoppedClosed => None
          end
      end
  | Send k =>
      match nth_error (workers p) k with
      | None => None
      | Some g =>
          match g_phase g with
          | Sending line =>
              if (List.length (results_buf p) <? results_cap)%nat then
                Some (set_worker k
                        {| g_id := g_id g; g_phase := Selecting;
                           g_world := g_world g; g_out := g_out g |}
                        (set_results (results_buf p ++ [line]) (main_out p) p))
              else None
          | Selecting | StoppedCancel | StoppedClosed => None
          end
      end
  | Drain =>
      match results_buf p with
      | [] => None
      | res :: rest =>
          Some (set_results rest (main_out p ++ [(res ++ newline)%string])%list p)
      end
  end.

(** The ways an action goes through. *)
Inductive moves (nets : Z -> string -> nat -> GetResult) (p : Pool)
  : Action -> Pool -> Prop :=
| mv_feed_panic (line : string) (rest : list string) :
    feeder_done p = false -> feed p = line :: rest -> jobs_shut p = true ->
    moves nets p Feed (panic p)
| mv_feed (line : string) (rest : list string) :
    feeder_done p = false -> feed p = line :: rest -> jobs_shut p = false ->
    (List.length (jobs_buf p) < jobs_cap)%nat ->
    moves nets p Feed (set_jobs (jobs_buf p ++ [line]) rest p)
| mv_close_panic :
    feeder_done p = false -> feed p = [] -> jobs_shut p = true ->
    moves nets p CloseJobs (panic p)
| mv_close :
    feeder_done p = false -> feed p = [] -> jobs_shut p = false ->
    moves nets p CloseJobs (shut_jobs p)
| mv_interrupt :
    ctx_done p = false -> moves nets p Interrupt (cancel p)
| mv_stop_cancel (k : nat) (g : Goroutine) :
    nth_error (workers p) k = Some g -> g_phase g = Selecting ->
    ctx_done p = true ->
    moves nets p (Select k CaseDone)
      (set_worker k
         {| g_id := g_id g; g_phase := StoppedCancel; g_world := g_world g;
            g_out := (g_out g ++ [stop_notice (g_id g)])%list |} p)
| mv_stop_closed (k : nat) (g : Goroutine) :
    nth_error (workers p) k = Some g -> g_phase g = Selecting ->
    jobs_buf p = [] -> jobs_shut p = true ->
    moves nets p (Select k CaseRecv)
      (set_worker k
         {| g_id := g_id g; g_phase := StoppedClosed; g_world := g_world g;
            g_out := g_out g |} p)
| mv_job (k : nat) (g : Goroutine) (url : string) (rest : list string)
    (body : string) (err : error) (w' : World) :
    nth_error (workers p) k = Some g -> g_phase g = Selecting ->
    jobs_buf p = url :: rest ->
    FetchWithRetry (nets (g_id g)) url 3 (g_world g) = (Some (body, err), w') ->
    moves nets p (Select k CaseRecv)
      (set_worker k
         {| g_id := g_id g;
            g_phase := Sending (result_line (g_id g) url body err);
            g_world := w'; g_out := g_out g |}
         (set_jobs rest (feed p) p))
| mv_send (k : nat) (g : Goroutine) (line : string) :
    nth_error (workers p) k = Some g -> g_phase g = Sending line ->
    (List.length (results_buf p) < results_cap)%nat ->
    moves nets p (Send k)
      (set_worker k
         {| g_id := g_id g; g_phase := Selecting; g_world := g_world g;
            g_out := g_out g |}
         (set_results (results_buf p ++ [line]) (main_out p) p))
| mv_drain (res : string) (rest : list string) :
    results_buf p = res :: rest ->
    moves nets p Drain
      (set_results rest (main_out p ++ [(res ++ newline)%string])%list p).

(** [for i := 0; i < workerCount; i++ { go worker.Start(ctx, i, ...) }]. *)
Definition spawn (count : nat) : list Goroutine :=
  map (fun i => {| g_id := Z.of_nat i; g_phase := Selecting; g_world := w0;
                   g_out := [] |})
      (seq 0 count).

(** The program once its goroutines are started, [lines] being what the
    scanner will yield from urls.txt (nothing when the file is missing). *)
Definition init_pool (lines : list string) : Pool :=
  {| ctx_done := false; jobs_buf := []; jobs_shut := false;
     results_buf := []; feed := lines; feeder_done := false;
     handler_out := []; main_out := [];
     workers := spawn (Z.to_nat workerCount); panicked := false |}.

Inductive reachable (nets : Z -> string -> nat -> GetResult)
  (lines : list string) : Pool -> Prop :=
| reach_init : reachable nets lines (init_pool lines)
| reach_step (p p' : Pool) (a : Action) :
    reachable nets lines p -> act nets a p = Some p' ->
    reachable nets lines p'.

(** A schedule, run from the left. *)
Fixpoint exec (nets : Z -> string -> nat -> GetResult)
  (schedule : list Action) (p : Pool) : option Pool :=
  match schedule with
  | [] => Some p
  | a :: rest =>
      match act nets a p with
      | Some p' => exec nets rest p'
      | None => None
      end
  end.

(** The workers that hold a result they have not sent yet. *)
Fixpoint sending (ws : list Goroutine) : nat :=
  match ws with
  | [] => O
  | g :: ws' =>
      match g_phase g with
      | Sending _ => S (sending ws')
      | Selecting | StoppedCancel | StoppedClosed => sending ws'
      end
  end.

Definition holds_result (g : Goroutine) : nat :=
  match g_phase g with
  | Sending _ => 1
  | Selecting | StoppedCancel | StoppedClosed => 0
  end.

(** A line that reports a url of the file, from a worker of the pool. *)
Definition reports (lines : list string) (line : string) : Prop :=
  exists (id : Z) (url body : string) (err : error),
    0 <= id < workerCount /\ In url lines /\
    line = result_line id url body err.

(** The program after it has fetched the one url of its file with status
    200 and every goroutine but main and the handler has returned, and the
    schedule that leads there. *)
Definition one_url_schedule : list Action :=
  [Feed; Select 0 CaseRecv; Send 0; Drain; CloseJobs;
   Select 0 CaseRecv; Select 1 CaseRecv; Select 2 CaseRecv;
   Select 3 CaseRecv; Select 4 CaseRecv].

Definition stopped_closed (id : Z) (w : World) : Goroutine :=
  {| g_id := id; g_phase := StoppedClosed; g_world := w; g_out := [] |}.

Definition one_url_done : Pool :=
  {| ctx_done := false; jobs_buf := []; jobs_shut := true;
     results_buf := []; feed := []; feeder_done := true;
     handler_out := [];
     main_out :=
       [("Worker 0: Fetched http://a.test, length: 15" ++ newline)%string];
     workers :=
       [stopped_closed 0
          {| gets := 1; log := [EvGet "http://a.test"; EvReadAll; EvClose] |};
        stopped_closed 1 w0; stopped_closed 2 w0; stopped_closed 3 w0;
        stopped_closed 4 w0];
     panicked := false |}.











(** A network that answers 200 with the same page to every worker. *)
Definition all_ok : Z -> string -> nat -> GetResult :=
  fun _ => all_ok_net.

End Main.

(** * Properties *)

Import Go Fetcher Worker Main.

(** ** Machine integers *)

Lemma wrap64_id (z : Z) : min_int <= z <= max_int -> wrap64 z = z.
Proof.
  unfold wrap64, min_int, max_int. intros H.
  rewrite Z.mod_small by lia. lia.
Qed.

Lemma int_add_1 (i n : Z) :
  0 <= i -> i < n -> n <= max_int -> int_add i 1 = i + 1.
Proof.
  intros Hlo Hlt Hhi. unfold int_add. apply wrap64_id.
  unfold min_int, max_int in *. lia.
Qed.

(** The backoff is [(i+1)] seconds as long as the product fits an int64. *)
Lemma backoff_seconds (i : Z) :
  0 <= i < 9223372036 -> backoff i = (i + 1) * Second.
Proof.
  intros Hi. unfold backoff, int64_mul.
  rewrite (int_add_1 i 9223372036) by (unfold max_int; lia).
  apply wrap64_id. unfold min_int, max_int, Second. lia.
Qed.

(** ** The retry loop, one iteration at a time *)

Section RetryLoop.

Variable net : string -> nat -> GetResult.
Variable url : string.
Variable n : Z.

Lemma loop_exit (fuel : nat) (i : Z) (err : error) (w : World) :
  n <= i -> retry_loop net fuel url n i err w = (Some (exhausted n err), w).
Proof.
  intros Hi. destruct fuel; simpl;
    (destruct (Z.ltb_spec i n) as [Hlt | _]; [lia | reflexivity]).
Qed.

Lemma loop_retry (fuel : nat) (i : Z) (err : error) (w : World) :
  i < n -> retryable (net url (gets w)) = true ->
  retry_loop net (S fuel) url n i err w =
  retry_loop net fuel url n (int_add i 1) (err_of (net url (gets w)))
    {| gets := S (gets w);
       log := (log w ++ [EvGet url; EvSleep (backoff i)])%list |}.
Proof.
  intros Hi Hr. cbn [retry_loop].
  destruct (Z.ltb_spec i n) as [_ | Hge]; [| lia].
  unfold retryable in Hr. unfold bind at 1. unfold http_Get at 1.
  destruct (ok_response (net url (gets w))); [discriminate |].
  unfold bind, time_Sleep, emit. cbn [gets log].
  rewrite <- app_assoc. reflexivity.
Qed.

Lemma loop_ok (fuel : nat) (i : Z) (err : error) (w : World)
  (status : Z) (data : string) :
  i < n -> net url (gets w) = GetResp status (ReadOk data) ->
  status = StatusOK ->
  retry_loop net (S fuel) url n i err w =
  (Some (data, None),
   {| gets := S (gets w);
      log := (log w ++ [EvGet url; EvReadAll; EvClose])%list |}).
Proof.
  intros Hi Hnet ->. cbn [retry_loop].
  destruct (Z.ltb_spec i n) as [_ | Hge]; [| lia].
  unfold bind at 1. unfold http_Get at 1. rewrite Hnet.
  cbn. rewrite <- !app_assoc. reflexivity.
Qed.

Lemma loop_read_error (fuel : nat) (i : Z) (err : error) (w : World)
  (status : Z) (msg : string) :
  i < n -> net url (gets w) = GetResp status (ReadErr msg) ->
  status = StatusOK ->
  retry_loop net (S fuel) url n i err w =
  (Some ("", Errorf ("error reading body: " ++ msg)),
   {| gets := S (gets w);
      log := (log w ++ [EvGet url; EvReadAll; EvClose])%list |}).
Proof.
  intros Hi Hnet ->. cbn [retry_loop].
  destruct (Z.ltb_spec i n) as [_ | Hge]; [| lia].
  unfold bind at 1. unfold http_Get at 1. rewrite Hnet.
  cbn. rewrite <- !app_assoc. reflexivity.
Qed.

End RetryLoop.

(** ** Runs of failed attempts *)

Section FailedAttempts.

Variable net : string -> nat -> GetResult.
Variable url : string.
Variable n : Z.
Hypothesis n_fits : n <= max_int.

Lemma after_no_failure (i : Z) (w : World) : after_failures url i 0 w = w.
Proof.
  destruct w as [g l]. unfold after_failures. cbn.
  rewrite Nat.add_0_r, app_nil_r. reflexivity.
Qed.

(** [m] retryable attempts in a row take the loop from index [i] to index
    [i + m], with a GET and a wait for each of them. *)
Lemma loop_failed_prefix (m : nat) :
  forall (fuel : nat) (i : Z) (err : error) (w : World),
    0 <= i -> i + Z.of_nat m <= n ->
    (forall j, (j < m)%nat -> retryable (net url (gets w + j)%nat) = true) ->
    retry_loop net (m + fuel) url n i err w =
    retry_loop net fuel url n (i + Z.of_nat m) (err_after net url err w m)
      (after_failures url i m w).
Proof.
  induction m as [| m IH]; intros fuel i err w Hi Hm Hfail.
  - rewrite after_no_failure, Z.add_0_r. reflexivity.
  - assert (H0 : retryable (net url (gets w)) = true).
    { rewrite <- (Nat.add_0_r (gets w)). apply Hfail. lia. }
    change (S m + fuel)%nat with (S (m + fuel)).
    rewrite loop_retry by (assumption || lia).
    rewrite (int_add_1 i n) by lia.
    rewrite IH; cbn [gets log].
    + f_equal.
      * lia.
      * destruct m as [| m']; cbn [err_after gets].
        -- rewrite Nat.add_0_r. reflexivity.
        -- f_equal. f_equal. lia.
      * unfold after_failures. cbn [gets log failed_rounds].
        f_equal; [lia |]. rewrite <- app_assoc. reflexivity.
    + lia.
    + lia.
    + intros j Hj. replace (S (gets w) + j)%nat with (gets w + S j)%nat by lia.
      apply Hfail. lia.
Qed.

(** When the first [n] attempts all fail, the call makes exactly these [n]
    attempts and returns the error of the last return statement, built from
    the [err] of the last GET. *)
Lemma all_attempts_fail (w : World) :
  (forall j, (j < Z.to_nat n)%nat ->
             retryable (net url (gets w + j)%nat) = true) ->
  FetchWithRetry net url n w =
  (Some (exhausted n (err_after net url None w (Z.to_nat n))),
   after_failures url 0 (Z.to_nat n) w).
Proof.
  intros Hfail. unfold FetchWithRetry.
  destruct (Z.lt_ge_cases n 0) as [Hneg | Hpos].
  - replace (Z.to_nat n) with O by lia.
    rewrite after_no_failure. apply loop_exit. lia.
  - rewrite <- (Nat.add_0_r (Z.to_nat n)) at 1.
    rewrite loop_failed_prefix by (assumption || lia).
    apply loop_exit. lia.
Qed.

Lemma get_count_app (l1 l2 : list Event) :
  get_count (l1 ++ l2) = (get_count l1 + get_count l2)%nat.
Proof.
  induction l1 as [| e l1 IH]; [reflexivity |].
  destruct e; cbn [app get_count]; rewrite IH; reflexivity.
Qed.

(** The loop always returns, after at most [n - i] further GET requests, and
    it reaches its last return statement only when all of them failed. *)
Lemma loop_bound (fuel : nat) :
  forall (i : Z) (err : error) (w : World),
    0 <= i -> (Z.to_nat (n - i) <= fuel)%nat ->
    exists (r : string * error) (w' : World),
      retry_loop net fuel url n i err w = (Some r, w') /\
      (gets w <= gets w' <= gets w + Z.to_nat (n - i))%nat /\
      get_count (log w') = (get_count (log w) + (gets w' - gets w))%nat /\
      (is_exhausted n r ->
       gets w' = (gets w + Z.to_nat (n - i))%nat /\
       forall j, (j < Z.to_nat (n - i))%nat ->
                 retryable (net url (gets w + j)%nat) = true).
Proof.
  induction fuel as [| fuel IH]; intros i err w Hi Hfuel.
  - exists (exhausted n err), w. rewrite loop_exit by lia.
    repeat split; lia.
  - destruct (Z.lt_ge_cases i n) as [Hlt | Hge].
    2:{ exists (exhausted n err), w. rewrite loop_exit by lia.
        repeat split; lia. }
    assert (Hsucc : Z.to_nat (n - i) = S (Z.to_nat (n - (i + 1)))) by lia.
    destruct (retryable (net url (gets w))) eqn:Hretry.
    + rewrite loop_retry by assumption.
      rewrite (int_add_1 i n) by lia.
      destruct (IH (i + 1) (err_of (net url (gets w)))
                  {| gets := S (gets w);
                     log := (log w ++ [EvGet url; EvSleep (backoff i)])%list |})
        as (r & w' & Hrun & Hgets & Hcount & Hex); [lia | lia |].
      cbn [gets log] in *. exists r, w'. rewrite Hrun, Hsucc.
      split; [reflexivity |]. split; [lia |]. split.
      * rewrite Hcount, get_count_app. cbn [get_count]. lia.
      * intros Hr. destruct (Hex Hr) as [Hn Hall]. split; [lia |].
        intros [| j] Hj.
        -- rewrite Nat.add_0_r. assumption.
        -- replace (gets w + S j)%nat with (S (gets w) + j)%nat by lia.
           apply Hall. lia.
    + unfold retryable in Hretry.
      destruct (net url (gets w)) as [msg | status body] eqn:Hnet;
        [discriminate |].
      cbn [ok_response] in Hretry.
      destruct (Z.eqb_spec status StatusOK) as [Hst | Hst]; [| discriminate].
      destruct body as [data | msg].
      * rewrite (loop_ok net url n fuel i err w status data) by assumption.
        eexists; eexists. split; [reflexivity |]. cbn [gets log].
        split; [lia |]. split.
        -- rewrite get_count_app. cbn [get_count]. lia.
        -- intros [e He]. discriminate He.
      * rewrite (loop_read_error net url n fuel i err w status msg)
          by assumption.
        eexists; eexists. split; [reflexivity |]. cbn [gets log].
        split; [lia |]. split.
        -- rewrite get_count_app. cbn [get_count]. lia.
        -- intros [e He]. unfold exhausted, Errorf in He. cbn in He.
           discriminate He.
Qed.

End FailedAttempts.

(** ** What a network changes for the loop

    Two networks that agree on which attempts pass the test
    [err == nil && resp.StatusCode == http.StatusOK], and on the bodies of
    those, drive the loop through the same effects; the results differ at
    most in the [err] that the last return statement prints. *)

Lemma loop_step (net : string -> nat -> GetResult) (url : string) (n : Z)
  (fuel : nat) (i : Z) (err : error) (w : World) :
  retry_loop net (S fuel) url n i err w =
  if (i <? n)%Z then
    match ok_response (net url (gets w)) with
    | Some (ReadOk data) =>
        (Some (data, None),
         {| gets := S (gets w);
            log := (log w ++ [EvGet url; EvReadAll; EvClose])%list |})
    | Some (ReadErr msg) =>
        (Some ("", Errorf ("error reading body: " ++ msg)),
         {| gets := S (gets w);
            log := (log w ++ [EvGet url; EvReadAll; EvClose])%list |})
    | None =>
        retry_loop net fuel url n (int_add i 1) (err_of (net url (gets w)))
          {| gets := S (gets w);
             log := (log w ++ [EvGet url; EvSleep (backoff i)])%list |}
    end
  else (Some (exhausted n err), w).
Proof.
  cbn [retry_loop]. destruct (i <? n)%Z; [| reflexivity].
  unfold bind at 1. unfold http_Get at 1.
  destruct (ok_response (net url (gets w))) as [[data | msg] |].
  - cbn. rewrite <- !app_assoc. reflexivity.
  - cbn. rewrite <- !app_assoc. reflexivity.
  - unfold bind, time_Sleep, emit. cbn [gets log].
    rewrite <- app_assoc. reflexivity.
Qed.

Lemma loop_same_effects (net net' : string -> nat -> GetResult)
  (url : string) (n : Z) :
  (forall k, ok_response (net url k) = ok_response (net' url k)) ->
  forall (fuel : nat) (i : Z) (err err' : error) (w : World),
    snd (retry_loop net fuel url n i err w) =
    snd (retry_loop net' fuel url n i err' w) /\
    same_outcome n (fst (retry_loop net fuel url n i err w))
                   (fst (retry_loop net' fuel url n i err' w)).
Proof.
  intros Hsame. induction fuel as [| fuel IH]; intros i err err' w.
  - cbn [retry_loop]. destruct (i <? n)%Z; cbn.
    + split; [reflexivity | left; reflexivity].
    + split; [reflexivity | right; exists err, err'; split; reflexivity].
  - rewrite !loop_step. destruct (i <? n)%Z.
    2:{ cbn. split; [reflexivity | right; exists err, err'; split; reflexivity]. }
    rewrite <- (Hsame (gets w)).
    destruct (ok_response (net url (gets w))) as [[data | msg] |].
    + cbn [fst snd]. split; [reflexivity | left; reflexivity].
    + cbn [fst snd]. split; [reflexivity | left; reflexivity].
    + apply IH.
Qed.

(** ** FetchWithRetry *)

Lemma get_count_failed_rounds (url : string) (m : nat) :
  forall i : Z, get_count (failed_rounds url i m) = m.
Proof.
  induction m as [| m IH]; intros i; [reflexivity |].
  cbn [failed_rounds get_count]. rewrite IH. reflexivity.
Qed.

Lemma sleeps_app (l1 l2 : list Event) :
  sleeps (l1 ++ l2) = (sleeps l1 ++ sleeps l2)%list.
Proof.
  induction l1 as [| e l1 IH]; [reflexivity |].
  destruct e; cbn [app sleeps]; rewrite IH; reflexivity.
Qed.

(** Each of [m] failed attempts in a row is followed by its wait, the last
    one too. *)
Lemma sleeps_failed_rounds (url : string) (m : nat) :
  forall i : Z,
    sleeps (failed_rounds url i m) =
    map (fun j => backoff (i + Z.of_nat j)) (seq 0 m).
Proof.
  induction m as [| m IH]; intros i; [reflexivity |].
  cbn [failed_rounds sleeps seq map]. rewrite Z.add_0_r, IH. f_equal.
  rewrite <- seq_shift, map_map. apply map_ext. intros j. f_equal. lia.
Qed.

(** The call reaches attempt [p + 1] after [p] failed attempts. *)
Lemma reaches_attempt (net : string -> nat -> GetResult) (url : string)
  (n : Z) (w : World) (p : nat) :
  n <= max_int -> Z.of_nat (S p) <= n ->
  (forall j, (j < p)%nat -> retryable (net url (gets w + j)%nat) = true) ->
  FetchWithRetry net url n w =
  retry_loop net (S (Z.to_nat n - S p)) url n (Z.of_nat p)
    (err_after net url None w p) (after_failures url 0 p w).
Proof.
  intros Hn Hp Hfail. unfold FetchWithRetry.
  replace (Z.to_nat n) with (p + S (Z.to_nat n - S p))%nat at 1 by lia.
  rewrite loop_failed_prefix by (assumption || lia).
  reflexivity.
Qed.

(** C1. For every url and every budget [n >= 1]: if attempt [k = p + 1 <= n]
    is reached (the [p] attempts before it failed) and its GET returns
    status 200 with a readable body, FetchWithRetry returns that body with a
    nil error right after attempt [k]: the effects after the [p] failed
    rounds are the GET, the read and the close of the body, so no further
    GET and no further wait follow the 200. *)
Theorem success_returns_immediately (net : string -> nat -> GetResult)
  (url : string) (n : Z) (w : World) (p : nat) (body : string) :
  1 <= n <= max_int ->
  Z.of_nat (S p) <= n ->
  (forall j, (j < p)%nat -> retryable (net url (gets w + j)%nat) = true) ->
  net url (gets w + p)%nat = GetResp StatusOK (ReadOk body) ->
  FetchWithRetry net url n w =
  (Some (body, None),
   {| gets := gets w + S p;
      log := (log w ++ failed_rounds url 0 p
                    ++ [EvGet url; EvReadAll; EvClose])%list |}).
Proof.
  intros [_ Hn] Hp Hfail Hok.
  rewrite (reaches_attempt net url n w p) by assumption.
  rewrite (loop_ok net url n _ _ _ _ StatusOK body);
    [| lia | exact Hok | reflexivity].
  unfold after_failures. cbn [gets log].
  rewrite <- app_assoc. do 2 f_equal. lia.
Qed.

Lemma success_returns_immediately_witness :
  FetchWithRetry ok_on_second "http://a.test" 3 w0 =
  (Some ("<html>hi</html>", None),
   {| gets := 2;
      log := [EvGet "http://a.test"; EvSleep 1000000000;
              EvGet "http://a.test"; EvReadAll; EvClose] |}).
Proof.
  apply (success_returns_immediately ok_on_second "http://a.test" 3 w0 1
           "<html>hi</html>").
  - unfold max_int. lia.
  - simpl. lia.
  - intros j Hj. destruct j as [| j]; [reflexivity | lia].
  - reflexivity.
Defined.

(** C2. For every url and every budget [n >= 1], FetchWithRetry returns
    after at most [n] GET requests, and it returns the error of exhausted
    retries only when it made exactly [n] attempts and each of them failed
    (transport error or status other than 200). *)
Theorem retry_bound (net : string -> nat -> GetResult) (url : string)
  (n : Z) (w : World) :
  1 <= n <= max_int ->
  exists (r : string * error) (w' : World),
    FetchWithRetry net url n w = (Some r, w') /\
    (gets w <= gets w' <= gets w + Z.to_nat n)%nat /\
    (get_count (log w') <= get_count (log w) + Z.to_nat n)%nat /\
    (is_exhausted n r ->
     gets w' = (gets w + Z.to_nat n)%nat /\
     get_count (log w') = (get_count (log w) + Z.to_nat n)%nat /\
     forall j, (j < Z.to_nat n)%nat ->
               retryable (net url (gets w + j)%nat) = true).
Proof.
  intros [_ Hn].
  destruct (loop_bound net url n Hn (Z.to_nat n) 0 None w)
    as (r & w' & Hrun & Hgets & Hcount & Hex); [lia | lia |].
  rewrite Z.sub_0_r in *.
  exists r, w'. split; [exact Hrun |]. split; [exact Hgets |].
  split; [lia |]. intros Hr. destruct (Hex Hr) as [Hall Hfail].
  split; [exact Hall |]. split; [lia | exact Hfail].
Qed.

Lemma retry_bound_witness :
  exists (r : string * error) (w' : World),
    FetchWithRetry always_refused "http://bad.test" 3 w0 = (Some r, w') /\
    (gets w0 <= gets w' <= gets w0 + 3)%nat /\
    (get_count (log w') <= get_count (log w0) + 3)%nat /\
    (is_exhausted 3 r ->
     gets w' = (gets w0 + 3)%nat /\
     get_count (log w') = (get_count (log w0) + 3)%nat /\
     forall j, (j < 3)%nat ->
               retryable (always_refused "http://bad.test" (gets w0 + j)%nat)
               = true).
Proof.
  apply (retry_bound always_refused "http://bad.test" 3 w0).
  unfold max_int. lia.
Defined.

(** C4. For every url and every budget [n >= 1]: when each of the [n]
    attempts returns a response with a status other than 200,
    FetchWithRetry makes exactly [n] attempts (a GET and a wait each) and
    returns the error of exhausted retries; and a network that fails
    wherever this one does, with transport errors or any other status,
    drives the call through the very same effects to the same kind of
    result: a status other than 200 never leaves the loop early. *)
Theorem non200_is_retried (net : string -> nat -> GetResult) (url : string)
  (n : Z) (w : World) :
  1 <= n <= max_int ->
  (forall j, (j < Z.to_nat n)%nat ->
     exists status body,
       net url (gets w + j)%nat = GetResp status body /\ status <> StatusOK) ->
  FetchWithRetry net url n w =
    (Some (exhausted n None), after_failures url 0 (Z.to_nat n) w) /\
  gets (after_failures url 0 (Z.to_nat n) w) = (gets w + Z.to_nat n)%nat /\
  get_count (log (after_failures url 0 (Z.to_nat n) w)) =
    (get_count (log w) + Z.to_nat n)%nat /\
  forall net' : string -> nat -> GetResult,
    (forall k, ok_response (net' url k) = ok_response (net url k)) ->
    snd (FetchWithRetry net' url n w) = after_failures url 0 (Z.to_nat n) w /\
    exists err : error,
      fst (FetchWithRetry net' url n w) = Some (exhausted n err).
Proof.
  intros [Hn1 Hn] Hall.
  assert (Hretry : forall j, (j < Z.to_nat n)%nat ->
                             retryable (net url (gets w + j)%nat) = true).
  { intros j Hj. destruct (Hall j Hj) as (status & body & Hnet & Hst).
    unfold retryable. rewrite Hnet. cbn [ok_response].
    destruct (Z.eqb_spec status StatusOK); [contradiction | reflexivity]. }
  assert (Hrun : FetchWithRetry net url n w =
                 (Some (exhausted n None),
                  after_failures url 0 (Z.to_nat n) w)).
  { rewrite (all_attempts_fail net url n Hn w Hretry). do 3 f_equal.
    destruct (Z.to_nat n) as [| m] eqn:Hm; [reflexivity |].
    cbn [err_after]. destruct (Hall m) as (status & body & Hnet & _); [lia |].
    rewrite Hnet. reflexivity. }
  split; [exact Hrun |]. split; [reflexivity |]. split.
  - unfold after_failures. cbn [log]. rewrite get_count_app. f_equal.
    apply get_count_failed_rounds.
  - intros net' Hsame.
    destruct (loop_same_effects net' net url n Hsame (Z.to_nat n) 0 None None w)
      as [Hw Hout].
    fold (FetchWithRetry net' url n) in Hw, Hout.
    fold (FetchWithRetry net url n) in Hw, Hout.
    rewrite Hrun in Hw, Hout. cbn [fst snd] in Hw, Hout.
    split; [exact Hw |].
    destruct Hout as [Heq | (e & e' & He & _)].
    + exists None. exact Heq.
    + exists e. exact He.
Qed.

Lemma non200_is_retried_witness :
  FetchWithRetry always500 "http://bad.test" 3 w0 =
    (Some ("", Some "failed after 3 retries: <nil>"),
     after_failures "http://bad.test" 0 3 w0) /\
  gets (after_failures "http://bad.test" 0 3 w0) = 3%nat.
Proof.
  assert (H3 : 1 <= 3 <= max_int) by (unfold max_int; lia).
  assert (H500 : forall j, (j < Z.to_nat 3)%nat ->
            exists status body,
              always500 "http://bad.test" (gets w0 + j)%nat
              = GetResp status body /\ status <> StatusOK).
  { intros j _. exists 500, (ReadOk "oops"). split; [reflexivity |].
    unfold StatusOK. lia. }
  destruct (non200_is_retried always500 "http://bad.test" 3 w0 H3 H500)
    as (Hrun & Hgets & _).
  split; [exact Hrun | exact Hgets].
Defined.

(** C5. For every url and every budget [n >= 1]: if attempt [k = p + 1 <= n]
    is reached and its GET returns status 200 but reading the body fails,
    FetchWithRetry returns the empty string with the error
    [error reading body: ...] at once: the body is read once, and no GET
    and no wait follow, whatever is left of the budget. *)
Theorem body_read_failure_is_terminal (net : string -> nat -> GetResult)
  (url : string) (n : Z) (w : World) (p : nat) (msg : string) :
  1 <= n <= max_int ->
  Z.of_nat (S p) <= n ->
  (forall j, (j < p)%nat -> retryable (net url (gets w + j)%nat) = true) ->
  net url (gets w + p)%nat = GetResp StatusOK (ReadErr msg) ->
  FetchWithRetry net url n w =
  (Some ("", Errorf ("error reading body: " ++ msg)),
   {| gets := gets w + S p;
      log := (log w ++ failed_rounds url 0 p
                    ++ [EvGet url; EvReadAll; EvClose])%list |}).
Proof.
  intros [_ Hn] Hp Hfail Hbad.
  rewrite (reaches_attempt net url n w p) by assumption.
  rewrite (loop_read_error net url n _ _ _ _ StatusOK msg);
    [| lia | exact Hbad | reflexivity].
  unfold after_failures. cbn [gets log].
  rewrite <- app_assoc. do 2 f_equal. lia.
Qed.

Lemma body_read_failure_is_terminal_witness :
  FetchWithRetry unreadable_on_second "http://a.test" 3 w0 =
  (Some ("", Some "error reading body: unexpected EOF"),
   {| gets := 2;
      log := [EvGet "http://a.test"; EvSleep 1000000000;
              EvGet "http://a.test"; EvReadAll; EvClose] |}).
Proof.
  apply (body_read_failure_is_terminal unreadable_on_second "http://a.test"
           3 w0 1 "unexpected EOF").
  - unfold max_int. lia.
  - simpl. lia.
  - intros j Hj. destruct j as [| j]; [reflexivity | lia].
  - reflexivity.
Defined.

(** C10. For every url and every budget [n <= 0], FetchWithRetry leaves the
    world as it is (no GET, no wait) and returns the empty string with the
    error [failed after <n> retries: <nil>]; it does not return success. *)
Theorem no_budget_no_attempt (net : string -> nat -> GetResult)
  (url : string) (n : Z) (w : World) :
  n <= 0 ->
  FetchWithRetry net url n w =
  (Some ("", Errorf ("failed after " ++ fmt_d n ++ " retries: <nil>")), w).
Proof.
  intros Hn. unfold FetchWithRetry. rewrite loop_exit by lia. reflexivity.
Qed.

Lemma no_budget_no_attempt_witness :
  FetchWithRetry always500 "http://a.test" (-2) w0 =
  (Some ("", Some "failed after -2 retries: <nil>"), w0).
Proof.
  apply (no_budget_no_attempt always500 "http://a.test" (-2) w0). lia.
Defined.

(** The waits of a run of [n] failed attempts, as the code makes them: one
    after every failed attempt, [n] of them, of 1, 2, ..., [n] seconds. *)
Lemma waits_of_failed_run (net : string -> nat -> GetResult) (url : string)
  (n : Z) (w : World) :
  1 <= n <= 9223372036 ->
  (forall j, (j < Z.to_nat n)%nat ->
             retryable (net url (gets w + j)%nat) = true) ->
  sleeps (log (snd (FetchWithRetry net url n w))) =
  (sleeps (log w)
   ++ map (fun j => (Z.of_nat j + 1) * Second) (seq 0 (Z.to_nat n)))%list.
Proof.
  intros Hn Hfail.
  rewrite (all_attempts_fail net url n) by (unfold max_int; lia || assumption).
  cbn [snd after_failures log]. rewrite sleeps_app, sleeps_failed_rounds.
  f_equal. apply map_ext_in. intros j Hj. apply in_seq in Hj.
  rewrite backoff_seconds by lia. reflexivity.
Qed.

(** C3. On a url whose every GET returns status 500 and with a budget of 3,
    the code waits after the third and last attempt too: its waits are 1, 2
    and 3 seconds, where the waits before retries only are 1 and 2 seconds.
    The first effect is a GET (no wait before the first attempt) and the
    wait after failed attempt [i] is [i + 1] seconds. *)
Theorem wait_after_last_attempt :
  FetchWithRetry always500 "http://bad.test" 3 w0 =
  (Some ("", Some "failed after 3 retries: <nil>"),
   {| gets := 3;
      log := [EvGet "http://bad.test"; EvSleep (1 * Second);
              EvGet "http://bad.test"; EvSleep (2 * Second);
              EvGet "http://bad.test"; EvSleep (3 * Second)] |}) /\
  sleeps (log (snd (FetchWithRetry always500 "http://bad.test" 3 w0))) =
    [1 * Second; 2 * Second; 3 * Second] /\
  spec_waits 3 = [1 * Second; 2 * Second].
Proof.
  split; [| split]; vm_compute; reflexivity.
Qed.

(** When the last of [n >= 1] failed attempts is a transport error, the
    error of exhausted retries prints that error. *)
Lemma exhausted_prints_last_transport_error
  (net : string -> nat -> GetResult) (url : string) (n : Z) (w : World)
  (msg : string) :
  1 <= n <= max_int ->
  (forall j, (j < Z.to_nat n)%nat ->
             retryable (net url (gets w + j)%nat) = true) ->
  net url (gets w + Nat.pred (Z.to_nat n))%nat = GetErr msg ->
  fst (FetchWithRetry net url n w) =
  Some ("", Errorf ("failed after " ++ fmt_d n ++ " retries: " ++ msg)).
Proof.
  intros [Hn1 Hn] Hfail Hlast.
  rewrite (all_attempts_fail net url n Hn w Hfail). cbn [fst].
  destruct (Z.to_nat n) as [| m] eqn:Hm; [lia |].
  cbn [err_after Nat.pred] in *. rewrite Hlast. reflexivity.
Qed.

(** C6. On a url whose first GET is refused and whose two later GETs return
    status 500, with a budget of 3, the three attempts fail and the error
    returned is [failed after 3 retries: <nil>]: the [err] of the last GET
    is nil, the refusal met on the first attempt is not in the message. *)
Theorem nil_error_after_non200 :
  FetchWithRetry refused_then_500 "http://bad.test" 3 w0 =
  (Some ("", Some "failed after 3 retries: <nil>"),
   after_failures "http://bad.test" 0 3 w0) /\
  last_error_encountered refused_then_500 "http://bad.test" 3 =
    Some "dial tcp: connection refused" /\
  FetchWithRetry always500 "http://bad.test" 3 w0 =
  (Some ("", Some "failed after 3 retries: <nil>"),
   after_failures "http://bad.test" 0 3 w0).
Proof.
  split; [| split]; vm_compute; reflexivity.
Qed.

(** ** The worker loop *)

(** FetchWithRetry never runs out of fuel: it returns for every budget an
    [int] can hold. *)
Lemma FetchWithRetry_returns (net : string -> nat -> GetResult)
  (url : string) (n : Z) (w : World) :
  n <= max_int ->
  exists (r : string * error) (w' : World),
    FetchWithRetry net url n w = (Some r, w').
Proof.
  intros Hn.
  destruct (loop_bound net url n Hn (Z.to_nat n) 0 None w)
    as (r & w' & Hrun & _); [lia | lia |].
  exists r, w'. exact Hrun.
Qed.

(** FetchWithRetry with the worker's budget of 3 always returns. *)
Lemma fetch3_returns (net : string -> nat -> GetResult) (url : string)
  (w : World) :
  exists (body : string) (err : error) (w' : World),
    FetchWithRetry net url 3 w = (Some (body, err), w').
Proof.
  destruct (FetchWithRetry_returns net url 3 w)
    as ([body err] & w' & Hrun); [unfold max_int; lia |].
  exists body, err, w'. exact Hrun.
Qed.

Lemma iteration_inv (net : string -> nat -> GetResult) (id : Z)
  (pick : Case) (s s' : State) :
  iteration net id pick s = Some s' ->
  status s = Looping /\ iteration_spec net id s pick s'.
Proof.
  unfold iteration. destruct (status s); [| discriminate | discriminate].
  intros H. split; [reflexivity |]. destruct pick.
  - destruct (cancelled s) eqn:Hc; [| discriminate].
    injection H as <-. rewrite <- Hc at 1. apply it_cancel. exact Hc.
  - unfold chan_recv in H. destruct (jobs s) as [| url rest] eqn:Hjobs.
    + destruct (jobs_closed s) eqn:Hcl; [| discriminate].
      cbn in H. injection H as <-. rewrite <- Hcl at 1.
      apply it_closed; assumption.
    + cbn [negb] in H.
      destruct (FetchWithRetry net url 3 (world s)) as [[[body err] |] w']
        eqn:Hrun; [| discriminate].
      injection H as <-. apply (it_job net id s url rest body err w');
        assumption.
Qed.

Lemma iteration_job (net : string -> nat -> GetResult) (id : Z) (s : State)
  (url : string) (rest : list string) (body : string) (err : error)
  (w' : World) :
  status s = Looping -> jobs s = url :: rest ->
  FetchWithRetry net url 3 (world s) = (Some (body, err), w') ->
  iteration net id CaseRecv s =
  Some {| cancelled := cancelled s; jobs := rest;
          jobs_closed := jobs_closed s;
          results := (results s ++ [result_line id url body err])%list;
          stdout := stdout s; world := w'; status := Looping |}.
Proof.
  intros Hst Hjobs Hrun. unfold iteration. rewrite Hst, Hjobs.
  cbn [chan_recv negb]. rewrite Hrun. reflexivity.
Qed.

Lemma env_step_keeps (s s' : State) :
  env_step s s' ->
  results s' = results s /\ stdout s' = stdout s /\ status s' = status s /\
  world s' = world s.
Proof. intros H. destruct H; cbn; repeat split; reflexivity. Qed.

Lemma returned_worker_is_stuck (net : string -> nat -> GetResult) (id : Z)
  (s s' : State) :
  status s <> Looping -> ~ worker_step net id s s'.
Proof.
  intros Hst H. destruct H as [pick s s' Hit].
  apply iteration_inv in Hit. destruct Hit as [Hloop _]. contradiction.
Qed.

(** C7. For every job a worker takes from the jobs channel, the worker calls
    FetchWithRetry with a budget of 3 and sends exactly one string on the
    results channel: [Worker <id>: Fetched <url>, length: <n>], with [n] the
    number of bytes of the body, when the error is nil, and
    [Worker <id>: Error fetching <url>: <error>] otherwise. *)
Theorem one_result_per_job (net : string -> nat -> GetResult) (id : Z)
  (s : State) (url : string) (rest : list string) :
  status s = Looping -> jobs s = url :: rest ->
  exists (body : string) (err : error) (w' : World) (s' : State),
    FetchWithRetry net url 3 (world s) = (Some (body, err), w') /\
    iteration net id CaseRecv s = Some s' /\
    results s' =
      (results s ++
       [(match err with
         | Some e =>
             "Worker " ++ fmt_d id ++ ": Error fetching " ++ url ++ ": " ++ e
         | None =>
             "Worker " ++ fmt_d id ++ ": Fetched " ++ url ++ ", length: "
             ++ fmt_d (Z.of_nat (String.length body))
         end)%string])%list /\
    List.length (results s') = S (List.length (results s)) /\
    jobs s' = rest /\ world s' = w' /\ stdout s' = stdout s /\
    status s' = Looping.
Proof.
  intros Hst Hjobs.
  destruct (fetch3_returns net url (world s)) as (body & err & w' & Hrun).
  exists body, err, w'. eexists. split; [exact Hrun |].
  split; [apply (iteration_job net id s url rest body err w'); assumption |].
  cbn [results jobs world stdout status].
  split; [destruct err; reflexivity |].
  split; [rewrite length_app; cbn; lia |].
  repeat split; reflexivity.
Qed.

Lemma one_result_per_job_witness :
  exists (body : string) (err : error) (w' : World) (s' : State),
    FetchWithRetry ok_on_second "http://a.test" 3 w0
      = (Some (body, err), w') /\
    iteration ok_on_second 1 CaseRecv cancelled_with_job = Some s' /\
    results s' =
      ([] ++
       [(match err with
         | Some e =>
             "Worker " ++ fmt_d 1 ++ ": Error fetching " ++ "http://a.test"
             ++ ": " ++ e
         | None =>
             "Worker " ++ fmt_d 1 ++ ": Fetched " ++ "http://a.test"
             ++ ", length: " ++ fmt_d (Z.of_nat (String.length body))
         end)%string])%list /\
    List.length (results s') = 1%nat /\
    jobs s' = [] /\ world s' = w' /\ stdout s' = [] /\ status s' = Looping.
Proof.
  apply (one_result_per_job ok_on_second 1 cancelled_with_job
           "http://a.test" []); reflexivity.
Defined.

Example fetched_line_example :
  iteration ok_on_second 1 CaseRecv cancelled_with_job =
  Some {| cancelled := true; jobs := []; jobs_closed := false;
          results := ["Worker 1: Fetched http://a.test, length: 15"];
          stdout := [];
          world := {| gets := 2;
                      log := [EvGet "http://a.test"; EvSleep 1000000000;
                              EvGet "http://a.test"; EvReadAll; EvClose] |};
          status := Looping |}.
Proof. vm_compute. reflexivity. Qed.

Example error_line_example :
  option_map results (iteration always_refused 4 CaseRecv cancelled_with_job) =
  Some ["Worker 4: Error fetching http://a.test: failed after 3 retries: dial tcp: connection refused"].
Proof. vm_compute. reflexivity. Qed.

(** ** Termination of the worker *)

Section WorkerRuns.

Variable net : string -> nat -> GetResult.
Variable id : Z.

Lemma step_keeps_printed (s s' : State) :
  step net id s s' ->
  stdout s = printed id (status s) -> stdout s' = printed id (status s').
Proof.
  intros Hstep Hinv. destruct Hstep as [s s' Hw | s s' He].
  - destruct Hw as [pick s s' Hit]. apply iteration_inv in Hit.
    destruct Hit as [Hloop Hspec]. rewrite Hloop in Hinv. cbn in Hinv.
    destruct Hspec; cbn [stdout status printed]; rewrite Hinv; reflexivity.
  - apply env_step_keeps in He. destruct He as (_ & Hout & Hst & _).
    rewrite Hout, Hst. exact Hinv.
Qed.

Lemma run_keeps_printed (s s' : State) :
  run net id s s' ->
  stdout s = printed id (status s) -> stdout s' = printed id (status s').
Proof.
  intros Hrun. induction Hrun as [s | s s' s'' Hstep _ IH]; intros Hinv.
  - exact Hinv.
  - apply IH. apply (step_keeps_printed s s'); assumption.
Qed.

(** A worker that has returned does nothing more. *)
Lemma returned_is_final (s s' : State) :
  run net id s s' -> status s <> Looping ->
  status s' = status s /\ results s' = results s /\ stdout s' = stdout s.
Proof.
  intros Hrun. induction Hrun as [s | s s' s'' Hstep _ IH]; intros Hret.
  - repeat split; reflexivity.
  - destruct Hstep as [s s' Hw | s s' He].
    + exfalso. exact (returned_worker_is_stuck net id s s' Hret Hw).
    + apply env_step_keeps in He. destruct He as (Hres & Hout & Hst & _).
      destruct IH as (IHst & IHres & IHout); [rewrite Hst; exact Hret |].
      rewrite IHst, IHres, IHout. repeat split; assumption.
Qed.

(** The step on which a worker returns. *)
Lemma returning_step (s s' : State) :
  worker_step net id s s' -> status s' <> Looping ->
  results s' = results s /\
  (status s' = ReturnedCancel ->
   cancelled s = true /\ stdout s' = (stdout s ++ [stop_notice id])%list) /\
  (status s' = ReturnedClosed ->
   jobs s = [] /\ jobs_closed s = true /\ stdout s' = stdout s).
Proof.
  intros Hw Hret. destruct Hw as [pick s s' Hit]. apply iteration_inv in Hit.
  destruct Hit as [_ Hspec].
  destruct Hspec; cbn [results status stdout] in *.
  - split; [reflexivity |]. split; [auto | discriminate].
  - split; [reflexivity |]. split; [discriminate | auto].
  - contradiction Hret. reflexivity.
Qed.

Lemma one_notice (s : State) :
  stdout s = [stop_notice id] -> notices id s = 1%nat.
Proof.
  intros H. unfold notices. rewrite H. cbn [count_occ].
  destruct (string_dec (stop_notice id) (stop_notice id)) as [_ | Hne];
    [reflexivity | contradiction Hne; reflexivity].
Qed.

End WorkerRuns.

(** C8. For every worker started in its loop with nothing printed, at every
    point of every run: a worker that returned from the cancellation case
    has printed [[Worker <id>] Stopping] exactly once and nothing else; a
    worker still in its loop or returned from the closed jobs channel has
    printed nothing; the step on which a worker returns sends nothing on the
    results channel, is taken from the cancellation case only when the
    context is cancelled and from the receive case only when the jobs
    channel is closed and empty, and then prints nothing; and a worker that
    has returned sends and prints nothing more. *)
Theorem stop_notice_once (net : string -> nat -> GetResult) (id : Z)
  (s0 s : State) :
  status s0 = Looping -> stdout s0 = [] -> run net id s0 s ->
  (status s = ReturnedCancel ->
   stdout s = [stop_notice id] /\ notices id s = 1%nat) /\
  (status s <> ReturnedCancel -> stdout s = [] /\ notices id s = 0%nat) /\
  (forall s1 s2 : State,
     worker_step net id s1 s2 -> status s2 <> Looping ->
     results s2 = results s1 /\
     (status s2 = ReturnedCancel ->
      cancelled s1 = true /\
      stdout s2 = (stdout s1 ++ [stop_notice id])%list) /\
     (status s2 = ReturnedClosed ->
      jobs s1 = [] /\ jobs_closed s1 = true /\ stdout s2 = stdout s1)) /\
  (status s <> Looping ->
   forall s' : State,
     run net id s s' ->
     status s' = status s /\ results s' = results s /\ stdout s' = stdout s).
Proof.
  intros Hloop Hout Hrun.
  assert (Hinv : stdout s = printed id (status s)).
  { apply (run_keeps_printed net id s0 s Hrun). rewrite Hloop. exact Hout. }
  split; [| split; [| split]].
  - intros Hst. rewrite Hst in Hinv. cbn in Hinv.
    split; [exact Hinv | apply one_notice; exact Hinv].
  - intros Hst.
    assert (Hnil : stdout s = []).
    { destruct (status s); [exact Hinv | contradiction Hst; reflexivity
                           | exact Hinv]. }
    split; [exact Hnil |]. unfold notices. rewrite Hnil. reflexivity.
  - intros s1 s2. apply returning_step.
  - intros Hret s' Hrun'. apply (returned_is_final net id s s'); assumption.
Qed.

Lemma stop_notice_once_witness :
  stdout (stopped_state 1) = ["[Worker 1] Stopping" ++ newline] /\
  notices 1 (stopped_state 1) = 1%nat.
Proof.
  assert (Hrun : run always500 1 start_state (stopped_state 1)).
  { apply (run_more always500 1 start_state
             {| cancelled := true; jobs := []; jobs_closed := false;
                results := []; stdout := []; world := w0;
                status := Looping |}).
    - apply step_env. exact (env_cancel start_state).
    - apply (run_more always500 1 _ (stopped_state 1)); [| apply run_done].
      apply step_worker. apply (ws_select always500 1 CaseDone).
      reflexivity. }
  exact (proj1 (stop_notice_once always500 1 start_state (stopped_state 1)
                  eq_refl eq_refl Hrun) eq_refl).
Defined.

(** ** Cancellation and the select *)

(** C9, as it is written, fails: with the context cancelled and the job
    [http://a.test] ready on the jobs channel, both cases of the select can
    proceed, and the step that chooses the receive case takes the job,
    fetches it, sends its result and leaves the worker in its loop. *)
Lemma job_taken_after_cancellation :
  cancelled cancelled_with_job = true /\
  (exists s' : State,
     worker_step always_refused 1 cancelled_with_job s' /\
     status s' = Looping /\ jobs s' = [] /\
     results s' =
       ["Worker 1: Error fetching http://a.test: failed after 3 retries: dial tcp: connection refused"]) /\
  ~ stops_once_cancelled always_refused 1.
Proof.
  assert (Hstep : exists s' : State,
     worker_step always_refused 1 cancelled_with_job s' /\
     status s' = Looping /\ jobs s' = [] /\
     results s' =
       ["Worker 1: Error fetching http://a.test: failed after 3 retries: dial tcp: connection refused"]).
  { eexists. split.
    - apply (ws_select always_refused 1 CaseRecv). vm_compute. reflexivity.
    - cbn [status jobs results]. repeat split; reflexivity. }
  split; [reflexivity |]. split; [exact Hstep |].
  intros Hclaim. destruct Hstep as (s' & Hw & Hst & _).
  destruct (Hclaim cancelled_with_job s' eq_refl Hw) as [Hne _].
  contradiction.
Qed.

(** C9, amended.  Once the context is cancelled, the next iteration of a
    worker in its loop can always end it through the cancellation case, and
    does end it, taking no job and sending no result, whenever no job is
    ready on the jobs channel; when a job is ready as well, the select
    chooses either case, and an iteration that leaves the worker in its loop
    has taken exactly the oldest job. *)
Theorem cancelled_worker_next_iteration (net : string -> nat -> GetResult)
  (id : Z) (s : State) :
  status s = Looping -> cancelled s = true ->
  (exists s' : State,
     worker_step net id s s' /\ status s' = ReturnedCancel /\
     jobs s' = jobs s /\ results s' = results s) /\
  (forall s' : State,
     worker_step net id s s' -> jobs s = [] ->
     status s' <> Looping /\ jobs s' = [] /\ results s' = results s) /\
  (forall s' : State,
     worker_step net id s s' -> status s' = Looping ->
     exists (url : string) (rest : list string),
       jobs s = url :: rest /\ jobs s' = rest).
Proof.
  intros Hloop Hcancel. split; [| split].
  - eexists. split.
    + apply (ws_select net id CaseDone). unfold iteration.
      rewrite Hloop, Hcancel. reflexivity.
    + cbn [status jobs results]. repeat split; reflexivity.
  - intros s' Hw Hjobs. destruct Hw as [pick s s' Hit].
    apply iteration_inv in Hit. destruct Hit as [_ Hspec].
    destruct Hspec as [Hc | Hj Hcl | url rest body err w' Hj Hrun];
      cbn [status jobs results].
    + repeat split; [discriminate | exact Hjobs].
    + repeat split; discriminate.
    + rewrite Hjobs in Hj. discriminate Hj.
  - intros s' Hw Hst. destruct Hw as [pick s s' Hit].
    apply iteration_inv in Hit. destruct Hit as [_ Hspec].
    destruct Hspec as [Hc | Hj Hcl | url rest body err w' Hj Hrun];
      cbn [status jobs] in *; try discriminate.
    exists url, rest. split; [exact Hj | reflexivity].
Qed.

Lemma cancelled_worker_next_iteration_witness :
  exists s' : State,
    worker_step always500 1 cancelled_with_job s' /\
    status s' = ReturnedCancel /\
    jobs s' = ["http://a.test"] /\ results s' = [].
Proof.
  exact (proj1 (cancelled_worker_next_iteration always500 1
                  cancelled_with_job eq_refl eq_refl)).
Defined.

(** * Further properties of FetchWithRetry *)

(** Among the first [m] attempts, either all are retryable or there is a
    first one that is not. *)
Lemma first_not_retryable (f : nat -> bool) (m : nat) :
  (forall j, (j < m)%nat -> f j = true) \/
  exists p, (p < m)%nat /\ f p = false /\
            forall j, (j < p)%nat -> f j = true.
Proof.
  induction m as [| m IH].
  - left. intros j Hj. lia.
  - destruct IH as [Hall | (p & Hp & Hfp & Hbefore)].
    + destruct (f m) eqn:Hfm.
      * left. intros j Hj. destruct (Nat.eq_dec j m) as [-> | Hne];
          [exact Hfm | apply Hall; lia].
      * right. exists m. split; [lia |]. split; [exact Hfm | exact Hall].
    + right. exists p. split; [lia |]. split; assumption.
Qed.

Lemma not_retryable_is_200 (r : GetResult) :
  retryable r = false -> exists body, r = GetResp StatusOK body.
Proof.
  unfold retryable. destruct r as [msg | status body]; cbn [ok_response].
  - discriminate.
  - destruct (Z.eqb_spec status StatusOK) as [-> | _]; [| discriminate].
    intros _. exists body. reflexivity.
Qed.

(** The result of reading the body of the response that ends the loop. *)
Lemma loop_200 (net : string -> nat -> GetResult) (url : string) (n : Z)
  (fuel : nat) (i : Z) (err : error) (w : World) (body : ReadResult) :
  i < n -> net url (gets w) = GetResp StatusOK body ->
  retry_loop net (S fuel) url n i err w =
  (Some match body with
        | ReadOk data => (data, None)
        | ReadErr msg => ("", Errorf ("error reading body: " ++ msg))
        end,
   {| gets := S (gets w);
      log := (log w ++ [EvGet url; EvReadAll; EvClose])%list |}).
Proof.
  intros Hi Hnet. destruct body as [data | msg].
  - apply (loop_ok net url n fuel i err w StatusOK data);
      [assumption | assumption | reflexivity].
  - apply (loop_read_error net url n fuel i err w StatusOK msg);
      [assumption | assumption | reflexivity].
Qed.

(** The first attempt with status 200 ends the call. *)
Lemma ends_at_first_200 (net : string -> nat -> GetResult) (url : string)
  (n : Z) (w : World) (p : nat) (body : ReadResult) :
  n <= max_int -> (p < Z.to_nat n)%nat ->
  (forall j, (j < p)%nat -> retryable (net url (gets w + j)%nat) = true) ->
  net url (gets w + p)%nat = GetResp StatusOK body ->
  FetchWithRetry net url n w =
  (Some match body with
        | ReadOk data => (data, None)
        | ReadErr msg => ("", Errorf ("error reading body: " ++ msg))
        end,
   {| gets := gets w + S p;
      log := (log w ++ failed_rounds url 0 p
                    ++ [EvGet url; EvReadAll; EvClose])%list |}).
Proof.
  intros Hn Hp Hbefore Hbody.
  rewrite (reaches_attempt net url n w p) by (assumption || lia).
  rewrite (loop_200 net url n _ _ _ _ body); [| lia | exact Hbody].
  unfold after_failures. cbn [gets log].
  rewrite <- app_assoc. do 2 f_equal. lia.
Qed.

(** Every return of FetchWithRetry: either all [n] attempts failed and the
    last return statement is reached, or the first attempt with status 200
    ends the call. *)
Lemma FetchWithRetry_cases (net : string -> nat -> GetResult) (url : string)
  (n : Z) (w : World) :
  n <= max_int ->
  ((forall j, (j < Z.to_nat n)%nat ->
              retryable (net url (gets w + j)%nat) = true) /\
   FetchWithRetry net url n w =
   (Some (exhausted n (err_after net url None w (Z.to_nat n))),
    after_failures url 0 (Z.to_nat n) w)) \/
  (exists (p : nat) (body : ReadResult),
     (p < Z.to_nat n)%nat /\
     (forall j, (j < p)%nat -> retryable (net url (gets w + j)%nat) = true) /\
     net url (gets w + p)%nat = GetResp StatusOK body /\
     FetchWithRetry net url n w =
     (Some match body with
           | ReadOk data => (data, None)
           | ReadErr msg => ("", Errorf ("error reading body: " ++ msg))
           end,
      {| gets := gets w + S p;
         log := (log w ++ failed_rounds url 0 p
                       ++ [EvGet url; EvReadAll; EvClose])%list |})).
Proof.
  intros Hn.
  destruct (first_not_retryable (fun j => retryable (net url (gets w + j)%nat))
              (Z.to_nat n)) as [Hall | (p & Hp & Hfp & Hbefore)].
  - left. split; [exact Hall |]. apply all_attempts_fail; assumption.
  - right. destruct (not_retryable_is_200 _ Hfp) as [body Hbody].
    exists p, body. split; [exact Hp |]. split; [exact Hbefore |].
    split; [exact Hbody |]. apply ends_at_first_200; assumption.
Qed.

(** X1. A nil error means a real success: the body returned is the body of
    the first response with status 200 among the first [n] GETs, every
    attempt before it failed, and the call stopped right after it. *)
Theorem nil_error_is_first_200 (net : string -> nat -> GetResult)
  (url : string) (n : Z) (w w' : World) (body : string) :
  n <= max_int ->
  FetchWithRetry net url n w = (Some (body, None), w') ->
  exists p : nat,
    (p < Z.to_nat n)%nat /\
    (forall j, (j < p)%nat -> retryable (net url (gets w + j)%nat) = true) /\
    net url (gets w + p)%nat = GetResp StatusOK (ReadOk body) /\
    w' = {| gets := gets w + S p;
            log := (log w ++ failed_rounds url 0 p
                          ++ [EvGet url; EvReadAll; EvClose])%list |}.
Proof.
  intros Hn Hrun.
  destruct (FetchWithRetry_cases net url n w Hn)
    as [[_ Hex] | (p & rb & Hp & Hbefore & Hnet & Hok)].
  - rewrite Hex in Hrun. discriminate Hrun.
  - rewrite Hok in Hrun. destruct rb as [data | msg].
    + injection Hrun as Hdata Hw. subst data.
      exists p. repeat split; try assumption. symmetry. exact Hw.
    + discriminate Hrun.
Qed.

Lemma nil_error_is_first_200_witness :
  exists p : nat,
    (p < 3)%nat /\
    (forall j, (j < p)%nat ->
               retryable (ok_on_second "http://a.test" (gets w0 + j)%nat)
               = true) /\
    ok_on_second "http://a.test" (gets w0 + p)%nat
      = GetResp StatusOK (ReadOk "<html>hi</html>") /\
    {| gets := 2;
       log := [EvGet "http://a.test"; EvSleep 1000000000;
               EvGet "http://a.test"; EvReadAll; EvClose] |}
    = {| gets := gets w0 + S p;
         log := (log w0 ++ failed_rounds "http://a.test" 0 p
                       ++ [EvGet "http://a.test"; EvReadAll; EvClose])%list |}.
Proof.
  apply (nil_error_is_first_200 ok_on_second "http://a.test" 3 w0).
  - unfold max_int. lia.
  - vm_compute. reflexivity.
Defined.

(** X2. A non-nil error always comes with the empty string, and it is one of
    two errors: [failed after <n> retries: ...] with the [err] of the last
    GET, after [n] failed attempts, or [error reading body: ...] with the
    read error of the first response with status 200. *)
Theorem error_result_shape (net : string -> nat -> GetResult)
  (url : string) (n : Z) (w w' : World) (body e : string) :
  n <= max_int ->
  FetchWithRetry net url n w = (Some (body, Some e), w') ->
  body = "" /\
  ((e = "failed after " ++ fmt_d n ++ " retries: "
        ++ fmt_v (err_after net url None w (Z.to_nat n)) /\
    (forall j, (j < Z.to_nat n)%nat ->
               retryable (net url (gets w + j)%nat) = true) /\
    gets w' = (gets w + Z.to_nat n)%nat) \/
   (exists (p : nat) (msg : string),
      (p < Z.to_nat n)%nat /\
      e = "error reading body: " ++ msg /\
      net url (gets w + p)%nat = GetResp StatusOK (ReadErr msg) /\
      gets w' = (gets w + S p)%nat)).
Proof.
  intros Hn Hrun.
  destruct (FetchWithRetry_cases net url n w Hn)
    as [[Hall Hex] | (p & rb & Hp & Hbefore & Hnet & Hok)].
  - rewrite Hex in Hrun. unfold exhausted, Errorf in Hrun.
    injection Hrun as Hbody He Hw. subst body e w'.
    split; [reflexivity |]. left. repeat split; assumption.
  - rewrite Hok in Hrun. destruct rb as [data | msg].
    + discriminate Hrun.
    + unfold Errorf in Hrun. injection Hrun as Hbody He Hw. subst body e w'.
      split; [reflexivity |]. right. exists p, msg.
      repeat split; assumption.
Qed.

Lemma error_result_shape_witness :
  "" = "" /\
  (("failed after 3 retries: dial tcp: connection refused" =
    "failed after " ++ fmt_d 3 ++ " retries: "
    ++ fmt_v (err_after always_refused "http://bad.test" None w0 (Z.to_nat 3))
    /\
    (forall j, (j < Z.to_nat 3)%nat ->
               retryable (always_refused "http://bad.test" (gets w0 + j)%nat)
               = true) /\
    gets (after_failures "http://bad.test" 0 3 w0)
    = (gets w0 + Z.to_nat 3)%nat) \/
   (exists (p : nat) (msg : string),
      (p < Z.to_nat 3)%nat /\
      "failed after 3 retries: dial tcp: connection refused"
      = "error reading body: " ++ msg /\
      always_refused "http://bad.test" (gets w0 + p)%nat
      = GetResp StatusOK (ReadErr msg) /\
      gets (after_failures "http://bad.test" 0 3 w0) = (gets w0 + S p)%nat)).
Proof.
  apply (error_result_shape always_refused "http://bad.test" 3 w0
           (after_failures "http://bad.test" 0 3 w0) ""
           "failed after 3 retries: dial tcp: connection refused").
  - unfold max_int. lia.
  - vm_compute. reflexivity.
Defined.

Lemma close_count_app (l1 l2 : list Event) :
  close_count (l1 ++ l2) = (close_count l1 + close_count l2)%nat.
Proof.
  induction l1 as [| e l1 IH]; [reflexivity |].
  destruct e; cbn [app close_count]; rewrite IH; reflexivity.
Qed.

Lemma close_count_failed_rounds (url : string) (m : nat) :
  forall i : Z, close_count (failed_rounds url i m) = O.
Proof.
  induction m as [| m IH]; intros i; [reflexivity |].
  cbn [failed_rounds close_count]. apply IH.
Qed.

(** X3. The body of a response is closed only on the path of status 200:
    a call whose [n] attempts all fail closes nothing, even when every
    attempt received a response, and a call that meets a status 200 closes
    exactly one body, the one it read. *)
Theorem only_the_200_body_is_closed (net : string -> nat -> GetResult)
  (url : string) (n : Z) (w : World) :
  n <= max_int ->
  ((forall j, (j < Z.to_nat n)%nat ->
              retryable (net url (gets w + j)%nat) = true) ->
   close_count (log (snd (FetchWithRetry net url n w))) = close_count (log w))
  /\
  ((exists p, (p < Z.to_nat n)%nat /\
              retryable (net url (gets w + p)%nat) = false) ->
   close_count (log (snd (FetchWithRetry net url n w)))
   = S (close_count (log w))).
Proof.
  intros Hn. split.
  - intros Hall. rewrite (all_attempts_fail net url n Hn w Hall).
    cbn [snd after_failures log].
    rewrite close_count_app, close_count_failed_rounds. lia.
  - intros (q & Hq & Hfq).
    destruct (FetchWithRetry_cases net url n w Hn)
      as [[Hall _] | (p & rb & Hp & Hbefore & Hnet & Hok)].
    + rewrite (Hall q Hq) in Hfq. discriminate Hfq.
    + rewrite Hok. cbn [snd log].
      rewrite !close_count_app, close_count_failed_rounds.
      cbn [close_count]. lia.
Qed.

Lemma only_the_200_body_is_closed_witness :
  close_count (log (snd (FetchWithRetry always500 "http://bad.test" 3 w0)))
  = close_count (log w0).
Proof.
  apply (only_the_200_body_is_closed always500 "http://bad.test" 3 w0).
  - unfold max_int. lia.
  - intros j _. reflexivity.
Defined.

Lemma seconds_sum (m : nat) :
  2 * fold_right Z.add 0
        (map (fun j => (Z.of_nat j + 1) * Second) (seq 0 m))
  = Z.of_nat m * (Z.of_nat m + 1) * Second.
Proof.
  induction m as [| m IH]; [reflexivity |].
  rewrite seq_S, map_app, fold_right_app. cbn [map fold_right Nat.add].
  assert (Hshift : forall (l : list Z) (a : Z),
             fold_right Z.add a l = fold_right Z.add 0 l + a).
  { induction l as [| x l IHl]; intros a; cbn [fold_right]; [lia |].
    rewrite IHl. lia. }
  rewrite Hshift. lia.
Qed.

(** X4. A call whose [n] attempts all fail sleeps [n * (n + 1) / 2] seconds
    in all before it returns its error (6 seconds for the worker's budget of
    3), as long as the durations fit an int64. *)
Theorem failed_fetch_total_wait (net : string -> nat -> GetResult)
  (url : string) (n : Z) (w : World) :
  1 <= n <= 9223372036 ->
  (forall j, (j < Z.to_nat n)%nat ->
             retryable (net url (gets w + j)%nat) = true) ->
  2 * (total_wait (log (snd (FetchWithRetry net url n w)))
       - total_wait (log w))
  = n * (n + 1) * Second.
Proof.
  intros Hn Hall. unfold total_wait.
  rewrite (waits_of_failed_run net url n w Hn Hall).
  rewrite fold_right_app.
  assert (Hshift : forall (l : list Z) (a : Z),
             fold_right Z.add a l = fold_right Z.add 0 l + a).
  { induction l as [| x l IHl]; intros a; cbn [fold_right]; [lia |].
    rewrite IHl. lia. }
  rewrite (Hshift (sleeps (log w))).
  pose proof (seconds_sum (Z.to_nat n)) as Hsum.
  rewrite Z2Nat.id in Hsum by lia. lia.
Qed.

Lemma failed_fetch_total_wait_witness :
  2 * (total_wait
         (log (snd (FetchWithRetry always500 "http://bad.test" 3 w0)))
       - total_wait (log w0))
  = 3 * (3 + 1) * Second.
Proof.
  apply (failed_fetch_total_wait always500 "http://bad.test" 3 w0).
  - lia.
  - intros j _. reflexivity.
Defined.

(** X5. A larger budget never changes a successful fetch: if the call
    succeeds with budget [n], it returns the same body through the same
    effects with every budget [m >= n]. *)
Theorem success_is_stable_under_budget (net : string -> nat -> GetResult)
  (url : string) (n m : Z) (w w' : World) (body : string) :
  n <= m <= max_int ->
  FetchWithRetry net url n w = (Some (body, None), w') ->
  FetchWithRetry net url m w = (Some (body, None), w').
Proof.
  intros [Hnm Hm] Hrun.
  assert (Hn : n <= max_int) by lia.
  destruct (FetchWithRetry_cases net url n w Hn)
    as [[_ Hex] | (p & rb & Hp & Hbefore & Hnet & Hok)].
  - rewrite Hex in Hrun. discriminate Hrun.
  - rewrite Hok in Hrun.
    rewrite (ends_at_first_200 net url m w p rb);
      [exact Hrun | exact Hm | lia | exact Hbefore | exact Hnet].
Qed.

Lemma success_is_stable_under_budget_witness :
  FetchWithRetry ok_on_second "http://a.test" 7 w0 =
  (Some ("<html>hi</html>", None),
   {| gets := 2;
      log := [EvGet "http://a.test"; EvSleep 1000000000;
              EvGet "http://a.test"; EvReadAll; EvClose] |}).
Proof.
  apply (success_is_stable_under_budget ok_on_second "http://a.test" 3 7 w0).
  - unfold max_int. lia.
  - vm_compute. reflexivity.
Defined.

(** * Further properties of the worker *)

Lemma returned_worker_run (net : string -> nat -> GetResult) (id : Z)
  (s s' : State) :
  worker_run net id s s' -> status s <> Looping -> s' = s.
Proof.
  intros Hrun Hret. destruct Hrun as [s | s s1 s' Hstep _].
  - reflexivity.
  - exfalso. exact (returned_worker_is_stuck net id s s1 Hret Hstep).
Qed.

Lemma fetch_all_cons (net : string -> nat -> GetResult) (id : Z)
  (url : string) (rest : list string) (w w' : World) (body : string)
  (err : error) :
  FetchWithRetry net url 3 w = (Some (body, err), w') ->
  fetch_all net id (url :: rest) w =
  (result_line id url body err :: fst (fetch_all net id rest w'),
   snd (fetch_all net id rest w')).
Proof.
  intros Hrun. cbn [fetch_all]. rewrite Hrun.
  destruct (fetch_all net id rest w') as [lines w2]. reflexivity.
Qed.

Lemma sole_worker_run_ends (net : string -> nat -> GetResult) (id : Z)
  (s s' : State) :
  worker_run net id s s' ->
  status s = Looping -> cancelled s = false -> jobs_closed s = true ->
  status s' <> Looping ->
  s' = {| cancelled := cancelled s; jobs := [];
          jobs_closed := jobs_closed s;
          results :=
            (results s ++ fst (fetch_all net id (jobs s) (world s)))%list;
          stdout := stdout s;
          world := snd (fetch_all net id (jobs s) (world s));
          status := ReturnedClosed |}.
Proof.
  intros Hrun.
  induction Hrun as [s | s s1 s' Hstep Hrun IH];
    intros Hloop Hcancel Hclosed Hret.
  - contradiction.
  - destruct Hstep as [pick s s1 Hit]. apply iteration_inv in Hit.
    destruct Hit as [_ Hspec].
    destruct Hspec as [Hc | Hj Hcl | url rest body err w' Hj Hfetch].
    + rewrite Hcancel in Hc. discriminate Hc.
    + rewrite (returned_worker_run net id _ s' Hrun) by (cbn; discriminate).
      rewrite Hj. cbn [fetch_all fst snd]. rewrite app_nil_r. reflexivity.
    + rewrite IH; cbn [status cancelled jobs_closed jobs results world stdout];
        try assumption; try reflexivity.
      rewrite Hj, (fetch_all_cons net id url rest (world s) w' body err Hfetch).
      cbn [fst snd]. rewrite <- app_assoc. reflexivity.
Qed.

Lemma sole_worker_can_finish (net : string -> nat -> GetResult) (id : Z)
  (js : list string) :
  forall s : State,
    jobs s = js -> status s = Looping -> jobs_closed s = true ->
    exists s' : State,
      worker_run net id s s' /\ status s' = ReturnedClosed.
Proof.
  induction js as [| url rest IH]; intros s Hj Hloop Hclosed.
  - eexists. split.
    + eapply wr_more; [| apply wr_done].
      apply (ws_select net id CaseRecv). unfold iteration.
      rewrite Hloop, Hj, Hclosed. cbn. reflexivity.
    + reflexivity.
  - destruct (fetch3_returns net url (world s)) as (body & err & w' & Hfetch).
    destruct (IH {| cancelled := cancelled s; jobs := rest;
                    jobs_closed := jobs_closed s;
                    results :=
                      (results s ++ [result_line id url body err])%list;
                    stdout := stdout s; world := w'; status := Looping |})
      as (s' & Hrun & Hst); [reflexivity | reflexivity | exact Hclosed |].
    exists s'. split; [| exact Hst].
    eapply wr_more; [| exact Hrun].
    apply (ws_select net id CaseRecv).
    apply (iteration_job net id s url rest body err w'); assumption.
Qed.

(** X6. A worker alone on a closed jobs channel, with the context not
    cancelled, can run until it returns, and whenever it has returned it has
    taken every queued url in order, sent exactly one result line per url in
    that order, printed nothing, and returned from the closed channel. *)
Theorem sole_worker_drains_queue (net : string -> nat -> GetResult) (id : Z)
  (s : State) :
  status s = Looping -> cancelled s = false -> jobs_closed s = true ->
  (exists s' : State, worker_run net id s s' /\ status s' = ReturnedClosed) /\
  (forall s' : State,
     worker_run net id s s' -> status s' <> Looping ->
     s' = {| cancelled := false; jobs := []; jobs_closed := true;
             results :=
               (results s ++ fst (fetch_all net id (jobs s) (world s)))%list;
             stdout := stdout s;
             world := snd (fetch_all net id (jobs s) (world s));
             status := ReturnedClosed |}) /\
  List.length (fst (fetch_all net id (jobs s) (world s)))
  = List.length (jobs s).
Proof.
  intros Hloop Hcancel Hclosed. split; [| split].
  - apply (sole_worker_can_finish net id (jobs s)); trivial.
  - intros s' Hrun Hret.
    rewrite (sole_worker_run_ends net id s s' Hrun Hloop Hcancel Hclosed Hret).
    rewrite Hcancel, Hclosed. reflexivity.
  - generalize (world s). induction (jobs s) as [| url rest IH]; intros w;
      [reflexivity |].
    destruct (fetch3_returns net url w) as (body & err & w' & Hfetch).
    rewrite (fetch_all_cons net id url rest w w' body err Hfetch).
    cbn [fst List.length]. rewrite IH. reflexivity.
Qed.

Lemma sole_worker_drains_queue_witness :
  List.length
    (fst (fetch_all ok_on_second 2 ["http://a.test"; "http://b.test"] w0))
  = 2%nat.
Proof.
  exact (proj2 (proj2 (sole_worker_drains_queue ok_on_second 2
           {| cancelled := false; jobs := ["http://a.test"; "http://b.test"];
              jobs_closed := true; results := []; stdout := []; world := w0;
              status := Looping |} eq_refl eq_refl eq_refl))).
Defined.

Example two_jobs_example :
  fst (fetch_all all_ok_net 2 ["http://a.test"; "http://b.test"] w0) =
  ["Worker 2: Fetched http://a.test, length: 15";
   "Worker 2: Fetched http://b.test, length: 15"].
Proof. vm_compute. reflexivity. Qed.

(** * The program: feeder, workers, handler and main's loop *)

(** An action goes through in one of the ways of [moves], and each of them
    goes through when the program has not panicked. *)
Lemma act_moves (nets : Z -> string -> nat -> GetResult) (a : Action)
  (p p' : Pool) :
  act nets a p = Some p' -> panicked p = false /\ moves nets p a p'.
Proof.
  unfold act. destruct (panicked p) eqn:Hpanic; [discriminate |].
  intros H. split; [reflexivity |]. destruct a as [| | | k pick | k |].
  - destruct (feeder_done p) eqn:Hdone; [discriminate |].
    destruct (feed p) as [| line rest] eqn:Hfeed; [discriminate |].
    destruct (jobs_shut p) eqn:Hshut.
    + injection H as <-. apply (mv_feed_panic nets p line rest); assumption.
    + destruct (Nat.ltb_spec (List.length (jobs_buf p)) jobs_cap);
        [| discriminate].
      injection H as <-. apply mv_feed; assumption.
  - destruct (feeder_done p) eqn:Hdone; [discriminate |].
    destruct (feed p) as [| line rest] eqn:Hfeed; [| discriminate].
    destruct (jobs_shut p) eqn:Hshut; injection H as <-.
    + apply mv_close_panic; assumption.
    + apply mv_close; assumption.
  - destruct (ctx_done p) eqn:Hctx; [discriminate |].
    injection H as <-. apply mv_interrupt. assumption.
  - destruct (nth_error (workers p) k) as [g |] eqn:Hk; [| discriminate].
    destruct (g_phase g) eqn:Hphase; try discriminate.
    destruct pick.
    + destruct (ctx_done p) eqn:Hctx; [| discriminate].
      injection H as <-. apply mv_stop_cancel; assumption.
    + unfold chan_recv in H.
      destruct (jobs_buf p) as [| url rest] eqn:Hjobs.
      * destruct (jobs_shut p) eqn:Hshut; [| discriminate].
        cbn [negb] in H. injection H as <-. apply mv_stop_closed; assumption.
      * cbn [negb] in H.
        destruct (FetchWithRetry (nets (g_id g)) url 3 (g_world g))
          as [[[body err] |] w'] eqn:Hfetch; [| discriminate].
        injection H as <-.
        apply (mv_job nets p k g url rest body err w'); assumption.
  - destruct (nth_error (workers p) k) as [g |] eqn:Hk; [| discriminate].
    destruct (g_phase g) as [| line | |] eqn:Hphase; try discriminate.
    destruct (Nat.ltb_spec (List.length (results_buf p)) results_cap);
      [| discriminate].
    injection H as <-. apply mv_send; assumption.
  - destruct (results_buf p) as [| res rest] eqn:Hres; [discriminate |].
    injection H as <-. apply mv_drain. assumption.
Qed.


Lemma reachable_exec (nets : Z -> string -> nat -> GetResult)
  (lines : list string) (schedule : list Action) :
  forall p p' : Pool,
    reachable nets lines p -> exec nets schedule p = Some p' ->
    reachable nets lines p'.
Proof.
  induction schedule as [| a rest IH]; intros p p' Hp Hexec; cbn in Hexec.
  - injection Hexec as <-. exact Hp.
  - destruct (act nets a p) as [p1 |] eqn:Hact; [| discriminate].
    apply (IH p1 p'); [| exact Hexec].
    apply (reach_step nets lines p p1 a); assumption.
Qed.

(** The jobs channel is closed exactly when the feeder has returned, and
    then nothing is left to send. *)
Lemma feeder_invariant
  (nets : Z -> string -> nat -> GetResult) (lines : list string) (p : Pool) :
  reachable nets lines p ->
  panicked p = false /\ jobs_shut p = feeder_done p /\
  (jobs_shut p = true -> feed p = []).
Proof.
  intros Hreach.
  induction Hreach as [| p p' a _ (Hpanic & Hshut & Hfeed) Hact].
  - cbn. repeat split. discriminate.
  - apply act_moves in Hact. destruct Hact as [_ Hmove].
    destruct Hmove; cbn; repeat split; congruence || auto.
Qed.

(** X7. The feeder never sends on a closed channel and never closes one
    twice: no reachable state has panicked and no action from a reachable
    state panics; the jobs channel is closed only when the feeder has
    returned, after it has sent every line of the file. *)
Theorem feeder_closes_after_sending (nets : Z -> string -> nat -> GetResult)
  (lines : list string) (p : Pool) :
  reachable nets lines p ->
  panicked p = false /\
  (forall (a : Action) (p' : Pool),
     act nets a p = Some p' -> panicked p' = false) /\
  (jobs_shut p = true -> feeder_done p = true /\ feed p = []).
Proof.
  intros Hreach.
  destruct (feeder_invariant nets lines p Hreach) as (Hpanic & Hsame & Hfeed).
  split; [exact Hpanic |]. split.
  - intros a p' Hact.
    exact (proj1 (feeder_invariant nets lines p'
                    (reach_step nets lines p p' a Hreach Hact))).
  - intros Hshut. split; [congruence | exact (Hfeed Hshut)].
Qed.

Lemma one_url_done_reachable :
  reachable all_ok ["http://a.test"] one_url_done.
Proof.
  apply (reachable_exec all_ok ["http://a.test"] one_url_schedule
           (init_pool ["http://a.test"])).
  - apply reach_init.
  - vm_compute. reflexivity.
Qed.

Lemma feeder_closes_after_sending_witness :
  panicked one_url_done = false /\
  (forall (a : Action) (p' : Pool),
     act all_ok a one_url_done = Some p' -> panicked p' = false) /\
  (jobs_shut one_url_done = true ->
   feeder_done one_url_done = true /\ feed one_url_done = []).
Proof.
  exact (feeder_closes_after_sending all_ok ["http://a.test"] one_url_done
           one_url_done_reachable).
Defined.

(** ** Lists of goroutines *)

Lemma set_nth_length {A : Type} (k : nat) (x : A) (l : list A) :
  List.length (set_nth k x l) = List.length l.
Proof.
  revert k. induction l as [| y l IH]; intros k; [reflexivity |].
  destruct k as [| k]; cbn; [reflexivity | rewrite IH; reflexivity].
Qed.

Lemma set_nth_In {A : Type} (k : nat) (x y : A) (l : list A) :
  In y (set_nth k x l) -> y = x \/ In y l.
Proof.
  revert k. induction l as [| z l IH]; intros k; cbn.
  - intros [].
  - destruct k as [| k]; cbn.
    + intros [<- | Hin]; [left; reflexivity | right; right; exact Hin].
    + intros [<- | Hin]; [right; left; reflexivity |].
      destruct (IH k Hin) as [-> | Hl]; [left; reflexivity | right; right; exact Hl].
Qed.

Lemma set_nth_same_id (k : nat) (g g' : Goroutine) (ws : list Goroutine) :
  nth_error ws k = Some g -> g_id g' = g_id g ->
  map g_id (set_nth k g' ws) = map g_id ws.
Proof.
  revert k. induction ws as [| h ws IH]; intros k Hk Hid.
  - reflexivity.
  - destruct k as [| k]; cbn in *.
    + injection Hk as ->. rewrite Hid. reflexivity.
    + rewrite (IH k Hk Hid). reflexivity.
Qed.

Lemma sending_set_nth (k : nat) (g g' : Goroutine) (ws : list Goroutine) :
  nth_error ws k = Some g ->
  (sending (set_nth k g' ws) + holds_result g
   = sending ws + holds_result g')%nat.
Proof.
  revert k. induction ws as [| h ws IH]; intros k Hk.
  - destruct k; discriminate Hk.
  - destruct k as [| k]; cbn [nth_error set_nth sending] in *.
    + injection Hk as ->. unfold holds_result.
      destruct (g_phase g), (g_phase g'); lia.
    + specialize (IH k Hk). destruct (g_phase h); lia.
Qed.



(** ** Every line of the file is accounted for *)

(** The lines of the file are the lines taken by workers, then the lines in
    the jobs channel, then the lines not sent yet; and each taken line is a
    result on its way or printed. *)
Lemma accounting_inv (nets : Z -> string -> nat -> GetResult)
  (lines : list string) (p : Pool) :
  reachable nets lines p ->
  exists taken : list string,
    lines = (taken ++ jobs_buf p ++ feed p)%list /\
    List.length taken
    = (sending (workers p) + List.length (results_buf p)
       + List.length (main_out p))%nat.
Proof.
  intros Hreach.
  induction Hreach as [| p p' a _ (taken & Hsplit & Hcount) Hact].
  - exists []. split; [reflexivity |]. cbn. reflexivity.
  - apply act_moves in Hact. destruct Hact as [_ Hmove].
    destruct Hmove as
      [line rest Hdone Hfeed Hshut
      | line rest Hdone Hfeed Hshut Hroom
      | Hdone Hfeed Hshut
      | Hdone Hfeed Hshut
      | Hctx
      | k g Hk Hphase Hctx
      | k g Hk Hphase Hjobs Hshut
      | k g url rest body err w' Hk Hphase Hjobs Hfetch
      | k g line Hk Hphase Hroom
      | res rest Hres];
      cbn [jobs_buf feed workers results_buf main_out set_worker set_jobs
           set_results shut_jobs cancel panic].
    + exists taken. split; assumption.
    + exists taken. split; [| exact Hcount].
      rewrite Hsplit, Hfeed, <- app_assoc. reflexivity.
    + exists taken. split; assumption.
    + exists taken. split; assumption.
    + exists taken. split; assumption.
    + exists taken. split; [exact Hsplit |].
      pose proof (sending_set_nth k g
                    {| g_id := g_id g; g_phase := StoppedCancel;
                       g_world := g_world g;
                       g_out := (g_out g ++ [stop_notice (g_id g)])%list |}
                    (workers p) Hk) as Hs.
      unfold holds_result in Hs. rewrite Hphase in Hs. cbn [g_phase] in Hs. lia.
    + exists taken. split; [exact Hsplit |].
      pose proof (sending_set_nth k g
                    {| g_id := g_id g; g_phase := StoppedClosed;
                       g_world := g_world g; g_out := g_out g |}
                    (workers p) Hk) as Hs.
      unfold holds_result in Hs. rewrite Hphase in Hs. cbn [g_phase] in Hs. lia.
    + exists (taken ++ [url])%list. split.
      * rewrite Hsplit, Hjobs, <- app_assoc. reflexivity.
      * pose proof (sending_set_nth k g
                      {| g_id := g_id g;
                         g_phase :=
                           Sending (result_line (g_id g) url body err);
                         g_world := w'; g_out := g_out g |}
                      (workers p) Hk) as Hs.
        unfold holds_result in Hs. rewrite Hphase in Hs. cbn [g_phase] in Hs.
        rewrite length_app. cbn [List.length]. lia.
    + exists taken. split; [exact Hsplit |].
      pose proof (sending_set_nth k g
                    {| g_id := g_id g; g_phase := Selecting;
                       g_world := g_world g; g_out := g_out g |}
                    (workers p) Hk) as Hs.
      unfold holds_result in Hs. rewrite Hphase in Hs. cbn [g_phase] in Hs.
      rewrite length_app. cbn [List.length]. lia.
    + exists taken. split; [exact Hsplit |].
      rewrite Hres in Hcount. rewrite length_app.
      cbn [List.length] in *. lia.
Qed.



(** ** The workers of the pool *)

(** The workers keep the ids main gave them, 0 to 4. *)
Lemma worker_ids (nets : Z -> string -> nat -> GetResult)
  (lines : list string) (p : Pool) :
  reachable nets lines p -> map g_id (workers p) = [0; 1; 2; 3; 4].
Proof.
  intros Hreach. induction Hreach as [| p p' a _ IH Hact].
  - reflexivity.
  - apply act_moves in Hact. destruct Hact as [_ Hmove].
    destruct Hmove; cbn [workers set_worker set_jobs set_results shut_jobs
                         cancel panic];
      try exact IH;
      (erewrite set_nth_same_id; [exact IH | eassumption | reflexivity]).
Qed.

Lemma worker_id_range (nets : Z -> string -> nat -> GetResult)
  (lines : list string) (p : Pool) (g : Goroutine) :
  reachable nets lines p -> In g (workers p) -> 0 <= g_id g < workerCount.
Proof.
  intros Hreach Hin. apply (in_map g_id) in Hin.
  rewrite (worker_ids nets lines p Hreach) in Hin. unfold workerCount.
  cbn in Hin. intuition lia.
Qed.











(** X12. Every result a worker holds, every result in the results channel
    and every line main has printed (then followed by a newline) is the
    result line of a url of the file, formatted by a worker with an id from
    0 to 4: nothing else reaches the results channel. *)
Theorem printed_lines_report_urls (nets : Z -> string -> nat -> GetResult)
  (lines : list string) (p : Pool) :
  reachable nets lines p ->
  (forall (g : Goroutine) (line : string),
     In g (workers p) -> g_phase g = Sending line -> reports lines line) /\
  (forall line : string, In line (results_buf p) -> reports lines line) /\
  (forall out : string,
     In out (main_out p) ->
     exists line : string, out = line ++ newline /\ reports lines line).
Proof.
  intros Hreach.
  induction Hreach as [| p p' a Hreach (IHw & IHr & IHm) Hact].
  - split; [| split].
    + intros g line Hin Hphase. unfold init_pool in Hin. cbn [workers] in Hin.
      unfold spawn in Hin. apply in_map_iff in Hin.
      destruct Hin as (i & <- & _). discriminate Hphase.
    + intros line [].
    + intros out [].
  - destruct (accounting_inv nets lines p Hreach) as (taken & Hsplit & _).
    apply act_moves in Hact. destruct Hact as [_ Hmove].
    destruct Hmove as
      [line rest Hdone Hfeed Hshut
      | line rest Hdone Hfeed Hshut Hroom
      | Hdone Hfeed Hshut
      | Hdone Hfeed Hshut
      | Hctx
      | k g0 Hk Hphase0 Hctx
      | k g0 Hk Hphase0 Hjobs Hshut
      | k g0 url rest body err w' Hk Hphase0 Hjobs Hfetch
      | k g0 line0 Hk Hphase0 Hroom
      | res rest Hres];
      cbn [results_buf main_out workers set_worker set_jobs set_results
           shut_jobs cancel panic];
      try (split; [exact IHw | split; [exact IHr | exact IHm]]).
    + split; [| split; [exact IHr | exact IHm]].
      intros g line Hin Hphase. apply set_nth_In in Hin.
      destruct Hin as [-> | Hin];
        [discriminate Hphase | exact (IHw g line Hin Hphase)].
    + split; [| split; [exact IHr | exact IHm]].
      intros g line Hin Hphase. apply set_nth_In in Hin.
      destruct Hin as [-> | Hin];
        [discriminate Hphase | exact (IHw g line Hin Hphase)].
    + split; [| split; [exact IHr | exact IHm]].
      intros g line Hin Hphase. apply set_nth_In in Hin.
      destruct Hin as [-> | Hin]; [| exact (IHw g line Hin Hphase)].
      cbn [g_phase] in Hphase. injection Hphase as <-.
      exists (g_id g0), url, body, err. split; [| split; [| reflexivity]].
      * apply (worker_id_range nets lines p g0 Hreach).
        exact (nth_error_In _ _ Hk).
      * rewrite Hsplit, Hjobs. apply in_or_app. right. left. reflexivity.
    + split; [| split; [| exact IHm]].
      * intros g line Hin Hphase. apply set_nth_In in Hin.
        destruct Hin as [-> | Hin];
          [discriminate Hphase | exact (IHw g line Hin Hphase)].
      * intros line Hin. apply in_app_or in Hin.
        destruct Hin as [Hin | [<- | []]]; [exact (IHr line Hin) |].
        exact (IHw g0 line0 (nth_error_In _ _ Hk) Hphase0).
    + split; [exact IHw | split].
      * intros line Hin. apply IHr. rewrite Hres. right. exact Hin.
      * intros out Hin. apply in_app_or in Hin.
        destruct Hin as [Hin | [<- | []]]; [exact (IHm out Hin) |].
        exists res. split; [reflexivity |]. apply IHr. rewrite Hres.
        left. reflexivity.
Qed.

Lemma printed_lines_report_urls_witness :
  exists line : string,
    ("Worker 0: Fetched http://a.test, length: 15" ++ newline)%string
    = line ++ newline /\
    reports ["http://a.test"] line.
Proof.
  apply (proj2 (proj2 (printed_lines_report_urls all_ok ["http://a.test"]
                         one_url_done one_url_done_reachable))).
  left. reflexivity.
Defined.

(** ** The pool and the single worker *)




(** ** After an interrupt *)





